(** * update_data.py: fetch, parse, merge, serialize, patch

    A shallow embedding of [update_data.py] and the properties of its
    pipeline.

    - Text is a list of characters; the model covers code points below
      256, where [str.strip], [int] and [float] treat exactly the
      characters listed in [is_space] and [is_num_space] as white space.
    - Python's [int] is [Z].  A [float] is an IEEE 754 binary64 number,
      held as a [spec_float] in canonical form; conversions from decimal
      text round to nearest, ties to even, as CPython does.
    - A [dict] from years to values is a [gmap Z float].
    - The library functions the script calls ([str.strip], [int], [float],
      [round], [format], [csv.reader], [re.search], [re.sub], [sorted],
      [max], [strftime]) are modelled next to the code that uses them,
      following CPython 3.11.
    - The download, the clock and the file index.html are inputs of the
      model ([response], [env], [world]).  Lines printed to standard
      output are not recorded; lines printed to standard error are. *)

From Stdlib Require Import ZArith List Ascii String Bool Lia.
From Stdlib Require Import Floats.SpecFloat.
From stdpp Require Import gmap sorting.

Local Open Scope Z_scope.
Local Open Scope list_scope.

(** ** Text *)

Abbreviation text := (list ascii).

Definition str (s : string) : text := list_ascii_of_string s.

Definition code (c : ascii) : Z := Z.of_N (N_of_ascii c).

Definition LF : ascii := "010"%char.
Definition CR : ascii := "013"%char.
Definition TAB : ascii := "009"%char.
Definition SPACE : ascii := " "%char.
Definition DQUOTE : ascii := "034"%char.
Definition SQUOTE : ascii := "039"%char.
Definition BACKSLASH : ascii := "092"%char.

(** [str.isspace] on one character: the characters [str.strip()] removes. *)
Definition is_space (c : ascii) : bool :=
  let n := code c in
  ((9 <=? n) && (n <=? 13)) || ((28 <=? n) && (n <=? 32))
  || (n =? 133) || (n =? 160).

(** The narrower set [int] and [float] skip around a number. *)
Definition is_num_space (c : ascii) : bool :=
  let n := code c in
  ((9 <=? n) && (n <=? 13)) || (n =? 32) || (n =? 133) || (n =? 160).

Definition is_digit (c : ascii) : bool :=
  let n := code c in (48 <=? n) && (n <=? 57).

Definition digit_val (c : ascii) : Z := code c - 48.

Definition digit_char (d : Z) : ascii := ascii_of_N (Z.to_N (d + 48)).

Fixpoint lstrip_by (p : ascii -> bool) (s : text) : text :=
  match s with
  | c :: s' => if p c then lstrip_by p s' else s
  | [] => []
  end.

Definition rstrip_by (p : ascii -> bool) (s : text) : text :=
  rev (lstrip_by p (rev s)).

Definition strip_by (p : ascii -> bool) (s : text) : text :=
  rstrip_by p (lstrip_by p s).

(** [s.strip()] *)
Definition strip (s : text) : text := strip_by is_space s.

(** [s.strip(c)] for a one-character argument. *)
Definition strip_char (c : ascii) (s : text) : text := strip_by (Ascii.eqb c) s.

(** [s.replace(a, b)] for one-character [a] and [b]. *)
Definition replace_char (a b : ascii) (s : text) : text :=
  map (fun c => if Ascii.eqb c a then b else c) s.

(** [sep.join(parts)] *)
Fixpoint join (sep : text) (parts : list text) : text :=
  match parts with
  | [] => []
  | [p] => p
  | p :: rest => p ++ sep ++ join sep rest
  end.

(** ** Integers: [str(n)] and [int(s)] *)

Fixpoint digits_of (fuel : nat) (n : Z) (acc : text) : text :=
  match fuel with
  | O => acc
  | S fuel' =>
      let acc' := digit_char (n mod 10) :: acc in
      if n <? 10 then acc' else digits_of fuel' (n / 10) acc'
  end.

(** Decimal digits of a natural number, most significant first. *)
Definition str_of_nat (n : Z) : text :=
  digits_of (S (Z.to_nat (Z.log2 n))) n [].

(** [str(n)] *)
Definition str_of_int (n : Z) : text :=
  if n <? 0 then "-"%char :: str_of_nat (- n) else str_of_nat n.

(** A run of digits in which single underscores may sit between two
    digits: the digits read, or [None] when the text is not such a run. *)
Fixpoint digit_run (s : text) : option (list Z) :=
  match s with
  | [] => None
  | c :: s' =>
      if is_digit c then
        match s' with
        | [] => Some [digit_val c]
        | c' :: s'' =>
            if Ascii.eqb c' "_" then
              match s'' with
              | d :: _ =>
                  if is_digit d then option_map (cons (digit_val c)) (digit_run s'')
                  else None
              | [] => None
              end
            else option_map (cons (digit_val c)) (digit_run s')
        end
      else None
  end.

Definition of_digits (ds : list Z) : Z :=
  fold_left (fun acc d => 10 * acc + d) ds 0.

(** The interpreter's cap on the digits of a decimal integer literal. *)
Definition int_max_str_digits : Z := 4300.

Definition split_sign (s : text) : bool * text :=
  match s with
  | c :: s' =>
      if Ascii.eqb c "-" then (true, s')
      else if Ascii.eqb c "+" then (false, s')
      else (false, s)
  | [] => (false, [])
  end.

(** [int(s)]: [None] stands for [ValueError]. *)
Definition py_int (s : text) : option Z :=
  let '(neg, body) := split_sign (strip_by is_num_space s) in
  match digit_run body with
  | Some ds =>
      if int_max_str_digits <? Z.of_nat (length ds) then None
      else Some (if neg then - of_digits ds else of_digits ds)
  | None => None
  end.

(** ** Floats: binary64 *)

Abbreviation float := spec_float.

(** Least and greatest exponent of a binary64 number written m * 2^e with
    an integer m below 2^53. *)
Definition emin : Z := -1074.
Definition emax : Z := 971.

(** The exact value m * 2^e as a fraction. *)
Definition ratio_of (m e : Z) : Z * Z :=
  if 0 <=? e then (m * 2 ^ e, 1) else (m, 2 ^ (- e)).

(** The fraction n / (d * 2^e). *)
Definition scaled (n d e : Z) : Z * Z :=
  if 0 <=? e then (n, d * 2 ^ e) else (n * 2 ^ (- e), d).

(** Nearest integer to num/den, ties to the even one. *)
Definition round_half_even (num den : Z) : Z :=
  let q := num / den in
  match 2 * (num mod den) ?= den with
  | Lt => q
  | Gt => q + 1
  | Eq => if Z.even q then q else q + 1
  end.

(** The binary64 number nearest to n/d (n >= 0, d > 0), ties to even,
    with the sign [neg]: the conversion [float(s)] performs on a decimal
    literal. *)
Definition float_of_ratio (neg : bool) (n d : Z) : float :=
  if n =? 0 then S754_zero neg
  else
    let e1 := Z.log2 n - Z.log2 d - 52 in
    let '(num1, den1) := scaled n d e1 in
    let e2 := if num1 / den1 <? 2 ^ 52 then e1 - 1 else e1 in
    let e := Z.max e2 emin in
    let '(num, den) := scaled n d e in
    let m := round_half_even num den in
    let '(m', e') := if m =? 2 ^ 53 then (2 ^ 52, e + 1) else (m, e) in
    if m' =? 0 then S754_zero neg
    else if emax <? e' then S754_infinity neg
    else S754_finite neg (Z.to_pos m') e'.

(** The value n * 10^q. *)
Definition float_of_decimal (neg : bool) (n q : Z) : float :=
  if 0 <=? q then float_of_ratio neg (n * 10 ^ q) 1
  else float_of_ratio neg n (10 ^ (- q)).

Definition magnitude_compare (m1 : positive) (e1 : Z) (m2 : positive) (e2 : Z)
  : comparison :=
  let e := Z.min e1 e2 in
  (Zpos m1 * 2 ^ (e1 - e)) ?= (Zpos m2 * 2 ^ (e2 - e)).

(** Comparison by value; [None] when an operand is a NaN. *)
Definition float_compare (x y : float) : option comparison :=
  match x, y with
  | S754_nan, _ | _, S754_nan => None
  | S754_infinity s1, S754_infinity s2 =>
      Some (match s1, s2 with
            | true, false => Lt
            | false, true => Gt
            | _, _ => Eq
            end)
  | S754_infinity s, _ => Some (if s then Lt else Gt)
  | _, S754_infinity s => Some (if s then Gt else Lt)
  | S754_zero _, S754_zero _ => Some Eq
  | S754_zero _, S754_finite s _ _ => Some (if s then Gt else Lt)
  | S754_finite s _ _, S754_zero _ => Some (if s then Lt else Gt)
  | S754_finite s1 m1 e1, S754_finite s2 m2 e2 =>
      Some (match s1, s2 with
            | true, false => Lt
            | false, true => Gt
            | false, false => magnitude_compare m1 e1 m2 e2
            | true, true => magnitude_compare m2 e2 m1 e1
            end)
  end.

(** [x <= y] *)
Definition float_le (x y : float) : bool :=
  match float_compare x y with
  | Some Lt | Some Eq => true
  | _ => false
  end.

(** [round(x, 1)]: the decimal with one fractional digit nearest to the
    exact value of [x] (ties to even), converted back to binary64. *)
Definition py_round1 (x : float) : float :=
  match x with
  | S754_finite s m e =>
      let '(num, den) := ratio_of (Zpos m * 10) e in
      float_of_ratio s (round_half_even num den) 10
  | _ => x
  end.

(** *** [float(s)] *)

Fixpoint span_digits (s : text) : list Z * text :=
  match s with
  | c :: s' =>
      if is_digit c then
        let '(ds, r) := span_digits s' in (digit_val c :: ds, r)
      else ([], s)
  | [] => ([], [])
  end.

(** Underscores may only stand between two digits. *)
Fixpoint underscores_ok (prev : option ascii) (s : text) : bool :=
  match s with
  | [] => match prev with
          | Some p => negb (Ascii.eqb p "_")
          | None => true
          end
  | c :: s' =>
      (if Ascii.eqb c "_" then
         match prev with Some p => is_digit p | None => false end
       else
         match prev with
         | Some p => if Ascii.eqb p "_" then is_digit c else true
         | None => true
         end)
      && underscores_ok (Some c) s'
  end.

Definition drop_underscores (s : text) : text :=
  filter (fun c => negb (Ascii.eqb c "_")) s.

Definition lower (c : ascii) : ascii :=
  let n := code c in
  if (65 <=? n) && (n <=? 90) then ascii_of_N (Z.to_N (n + 32)) else c.

Fixpoint text_eqb (a b : text) : bool :=
  match a, b with
  | [], [] => true
  | x :: a', y :: b' => Ascii.eqb x y && text_eqb a' b'
  | _, _ => false
  end.

(** Mantissa digits before and after the point, and the exponent. *)
Definition parse_decimal (s : text) : option (list Z * list Z * Z) :=
  let '(ip, r1) := span_digits s in
  let '(fp, r2) :=
    match r1 with
    | c :: r => if Ascii.eqb c "." then span_digits r else ([], r1)
    | [] => ([], r1)
    end in
  match ip ++ fp with
  | [] => None
  | _ :: _ =>
      match r2 with
      | [] => Some (ip, fp, 0)
      | c :: r3 =>
          if Ascii.eqb (lower c) "e" then
            let '(eneg, r4) := split_sign r3 in
            match span_digits r4 with
            | (d :: ds, []) =>
                let x := of_digits (d :: ds) in
                Some (ip, fp, if eneg then - x else x)
            | _ => None
            end
          else None
      end
  end.

(** [float(s)]: [None] stands for [ValueError]. *)
Definition py_float (s : text) : option float :=
  let t := strip_by is_num_space s in
  if underscores_ok None t then
    let '(neg, body) := split_sign (drop_underscores t) in
    let low := map lower body in
    if text_eqb low (str "inf") || text_eqb low (str "infinity")
    then Some (S754_infinity neg)
    else if text_eqb low (str "nan") then Some S754_nan
    else
      match parse_decimal body with
      | Some (ip, fp, ex) =>
          Some (float_of_decimal neg (of_digits (ip ++ fp))
                  (ex - Z.of_nat (length fp)))
      | None => None
      end
  else None.

(** *** [repr(x)] and [format(x, ">5")] *)

Definition float_eqb (x y : float) : bool :=
  match x, y with
  | S754_zero a, S754_zero b => Bool.eqb a b
  | S754_infinity a, S754_infinity b => Bool.eqb a b
  | S754_nan, S754_nan => true
  | S754_finite a m e, S754_finite b m' e' =>
      Bool.eqb a b && Pos.eqb m m' && Z.eqb e e'
  | _, _ => false
  end.

(** num/den < 10^k *)
Definition below_pow10 (k num den : Z) : bool :=
  if 0 <=? k then num <? 10 ^ k * den else num * 10 ^ (- k) <? den.

(** The k with 10^(k-1) <= num/den < 10^k, found next to an estimate
    from the binary logarithm. *)
Definition decimal_point (num den : Z) : Z :=
  let k0 := (Z.log2 num - Z.log2 den) * 30103 / 100000 in
  match find (fun k => below_pow10 k num den)
             [k0 - 1; k0; k0 + 1; k0 + 2; k0 + 3] with
  | Some k => k
  | None => k0
  end.

(** The decimals c * 10^(dp - p) on either side of num/den; the one that
    converts back to [x], the nearer one when both do. *)
Definition shortest_at (x : float) (num den dp p : Z) : option Z :=
  let '(n', d') :=
    if 0 <=? dp - p then (num, den * 10 ^ (dp - p))
    else (num * 10 ^ (p - dp), den) in
  let lo := n' / d' in
  let hi := lo + 1 in
  let ok c := float_eqb (float_of_decimal false c (dp - p)) x in
  match ok lo, ok hi with
  | true, true =>
      Some (match 2 * (n' mod d') ?= d' with
            | Lt => lo
            | Gt => hi
            | Eq => if Z.even lo then lo else hi
            end)
  | true, false => Some lo
  | false, true => Some hi
  | false, false => None
  end.

(** The first precision p, counted up from the given one, at which a
    decimal converts back to [x].  Seventeen digits always suffice for
    binary64, so the search started at 1 with fuel 17 does not run out. *)
Fixpoint shortest_from (fuel : nat) (x : float) (num den dp p : Z) : Z * Z :=
  match fuel with
  | O => (0, p)
  | S fuel' =>
      match shortest_at x num den dp p with
      | Some c => (c, p)
      | None => shortest_from fuel' x num den dp (p + 1)
      end
  end.

Definition strip_trailing_zeros (ds : text) : text :=
  rstrip_by (Ascii.eqb "0") ds.

(** The shortest digit string that converts back to the positive number
    m * 2^e, with the position of the decimal point relative to its
    first digit. *)
Definition shortest_digits (m : positive) (e : Z) : text * Z :=
  let '(num, den) := ratio_of (Zpos m) e in
  let dp := decimal_point num den in
  let '(c, p) := shortest_from 17 (S754_finite false m e) num den dp 1 in
  let ds := str_of_nat c in
  (strip_trailing_zeros ds, dp - p + Z.of_nat (length ds)).

Definition zeros (n : Z) : text := repeat "0"%char (Z.to_nat n).

Definition exponent_text (ex : Z) : text :=
  let ds := str_of_nat (Z.abs ex) in
  (if ex <? 0 then "-"%char else "+"%char)
    :: (if Z.of_nat (length ds) <? 2 then "0"%char :: ds else ds).

Definition layout_digits (ds : text) (decpt : Z) : text :=
  if (decpt <=? -4) || (16 <? decpt) then
    match ds with
    | d :: rest =>
        d :: (match rest with [] => [] | _ => "."%char :: rest end)
          ++ "e"%char :: exponent_text (decpt - 1)
    | [] => []
    end
  else if decpt <=? 0 then
    str "0." ++ zeros (- decpt) ++ ds
  else if Z.of_nat (length ds) <=? decpt then
    ds ++ zeros (decpt - Z.of_nat (length ds)) ++ str ".0"
  else
    firstn (Z.to_nat decpt) ds ++ "."%char :: skipn (Z.to_nat decpt) ds.

(** [repr(x)], which is also [str(x)] and [format(x, "")]. *)
Definition float_repr (x : float) : text :=
  match x with
  | S754_nan => str "nan"
  | S754_infinity s => if s then str "-inf" else str "inf"
  | S754_zero s => if s then str "-0.0" else str "0.0"
  | S754_finite s m e =>
      let '(ds, decpt) := shortest_digits m e in
      (if s then ["-"%char] else []) ++ layout_digits ds decpt
  end.

(** Right alignment in a field of [width] characters: the [>5] of the
    format specification. *)
Definition pad_left (width : nat) (s : text) : text :=
  repeat SPACE (width - length s) ++ s.

(** ** [csv.reader] over [io.StringIO(raw)], default dialect

    The reader's character automaton, for the dialect the script uses: a
    one-character delimiter, the double quote as quote character, doubled
    quotes inside quoted fields, no
    escape character, no skipping of initial spaces, not strict.  [None]
    stands for [csv.Error]. *)

Inductive csv_state :=
| START_RECORD
| START_FIELD
| IN_FIELD
| IN_QUOTED_FIELD
| QUOTE_IN_QUOTED_FIELD
| EAT_CRNL.

Record reader := {
  state : csv_state;
  field : text;
  fields : list text
}.

Definition field_limit : Z := 131072.

Definition parse_reset : reader :=
  {| state := START_RECORD; field := []; fields := [] |}.

Definition set_state (st : csv_state) (r : reader) : reader :=
  {| state := st; field := field r; fields := fields r |}.

Definition parse_save_field (r : reader) : reader :=
  {| state := state r; field := []; fields := fields r ++ [field r] |}.

Definition parse_add_char (r : reader) (c : ascii) : option reader :=
  if field_limit <=? Z.of_nat (length (field r)) then None
  else Some {| state := state r; field := field r ++ [c]; fields := fields r |}.

Definition is_newline (c : ascii) : bool := Ascii.eqb c LF || Ascii.eqb c CR.

(** One step of the automaton; the character [None] is the end-of-line
    mark the reader feeds after the last character of every line. *)
Definition parse_process_char (delim : ascii) (r : reader) (c : option ascii)
  : option reader :=
  let start_field :=
    match c with
    | None => Some (set_state START_RECORD (parse_save_field r))
    | Some ch =>
        if is_newline ch then Some (set_state EAT_CRNL (parse_save_field r))
        else if Ascii.eqb ch DQUOTE then Some (set_state IN_QUOTED_FIELD r)
        else if Ascii.eqb ch delim then
          Some (set_state START_FIELD (parse_save_field r))
        else option_map (set_state IN_FIELD) (parse_add_char r ch)
    end in
  match state r with
  | START_RECORD =>
      match c with
      | None => Some r
      | Some ch =>
          if is_newline ch then Some (set_state EAT_CRNL r) else start_field
      end
  | START_FIELD => start_field
  | IN_FIELD =>
      match c with
      | None => Some (set_state START_RECORD (parse_save_field r))
      | Some ch =>
          if is_newline ch then Some (set_state EAT_CRNL (parse_save_field r))
          else if Ascii.eqb ch delim then
            Some (set_state START_FIELD (parse_save_field r))
          else parse_add_char r ch
      end
  | IN_QUOTED_FIELD =>
      match c with
      | None => Some r
      | Some ch =>
          if Ascii.eqb ch DQUOTE then Some (set_state QUOTE_IN_QUOTED_FIELD r)
          else parse_add_char r ch
      end
  | QUOTE_IN_QUOTED_FIELD =>
      match c with
      | None => Some (set_state START_RECORD (parse_save_field r))
      | Some ch =>
          if Ascii.eqb ch DQUOTE then
            option_map (set_state IN_QUOTED_FIELD) (parse_add_char r ch)
          else if Ascii.eqb ch delim then
            Some (set_state START_FIELD (parse_save_field r))
          else if is_newline ch then
            Some (set_state EAT_CRNL (parse_save_field r))
          else option_map (set_state IN_FIELD) (parse_add_char r ch)
      end
  | EAT_CRNL =>
      match c with
      | None => Some (set_state START_RECORD r)
      | Some ch => if is_newline ch then Some r else None
      end
  end.

(** The characters of one line, then the end-of-line mark. *)
Fixpoint feed_line (delim : ascii) (r : reader) (line : text) : option reader :=
  match line with
  | [] => parse_process_char delim r None
  | c :: line' =>
      match parse_process_char delim r (Some c) with
      | Some r' => feed_line delim r' line'
      | None => None
      end
  end.

(** The lines [io.StringIO(raw)] yields: each ends at a line feed, which
    it keeps. *)
Fixpoint io_lines (raw : text) : list text :=
  match raw with
  | [] => []
  | c :: raw' =>
      if Ascii.eqb c LF then [LF] :: io_lines raw'
      else
        match io_lines raw' with
        | [] => [[c]]
        | l :: ls => (c :: l) :: ls
        end
  end.

Definition is_in_quoted (st : csv_state) : bool :=
  match st with IN_QUOTED_FIELD => true | _ => false end.

Definition is_start_record (st : csv_state) : bool :=
  match st with START_RECORD => true | _ => false end.

(** [list(reader)]: a record ends when a line leaves the automaton in
    [START_RECORD]; at the end of the input an unfinished record is
    returned if it holds a field. *)
Fixpoint read_rows (delim : ascii) (r : reader) (lines : list text)
  : option (list (list text)) :=
  match lines with
  | [] =>
      match field r with
      | [] =>
          if is_in_quoted (state r) then Some [fields (parse_save_field r)]
          else Some []
      | _ :: _ => Some [fields (parse_save_field r)]
      end
  | l :: ls =>
      match feed_line delim r l with
      | None => None
      | Some r' =>
          if is_start_record (state r') then
            option_map (cons (fields r')) (read_rows delim parse_reset ls)
          else read_rows delim r' ls
      end
  end.

(** [list(csv.reader(io.StringIO(raw), delimiter=sep))] *)
Definition csv_rows (sep : ascii) (raw : text) : option (list (list text)) :=
  read_rows sep parse_reset (io_lines raw).

(** ** Regular expressions: the fragment [update_html] uses

    A pattern is a sequence of one-character atoms, each matched once or
    one or more times (greedy, with backtracking). *)

Inductive atom :=
| Chr (c : ascii)      (* the character c *)
| NotChr (c : ascii).  (* the class [^c], which also matches a line feed *)

Inductive item :=
| One (a : atom)
| Plus (a : atom).

Definition atom_matches (a : atom) (ch : ascii) : bool :=
  match a with
  | Chr c => Ascii.eqb ch c
  | NotChr c => negb (Ascii.eqb ch c)
  end.

(** Match at the start of the text: what is left after the match.  A
    repeated atom takes as many characters as it can and gives them back
    one by one while the rest of the pattern fails. *)
Fixpoint match_here (re : list item) : text -> option text :=
  match re with
  | [] => fun s => Some s
  | One a :: re' =>
      fun s =>
        match s with
        | c :: s' => if atom_matches a c then match_here re' s' else None
        | [] => None
        end
  | Plus a :: re' =>
      fix plus (s : text) : option text :=
        match s with
        | c :: s' =>
            if atom_matches a c then
              match plus s' with
              | Some r => Some r
              | None => match_here re' s'
              end
            else None
        | [] => None
        end
  end.

(** [re.search(re, s)]: the leftmost match, as the text before it, the
    matched text and the text after it; [None] when nothing matches. *)
Fixpoint re_search (re : list item) (s : text) : option (text * text * text) :=
  match match_here re s with
  | Some rest => Some ([], firstn (length s - length rest) s, rest)
  | None =>
      match s with
      | [] => None
      | c :: s' =>
          match re_search re s' with
          | Some (before, m, after) => Some (c :: before, m, after)
          | None => None
          end
      end
  end.

(** [re.sub(re, repl, s, count=1)] for a replacement [repl] without a
    backslash.  [re.sub] reads its replacement as a template in which a
    backslash starts an escape or a group reference; every other
    character is inserted as it is. *)
Definition re_sub_first (re : list item) (repl s : text) : text :=
  match re_search re s with
  | Some (before, _, after) => before ++ repl ++ after
  | None => s
  end.

Definition has_backslash (s : text) : bool := existsb (Ascii.eqb BACKSLASH) s.

(** ** The script *)

(** A float literal of the source. *)
Definition float_lit (s : string) : float :=
  match py_float (str s) with
  | Some x => x
  | None => S754_nan
  end.

Abbreviation dict := (gmap Z float).

(** [d.update(other)] *)
Definition dict_update (d other : dict) : dict := other ∪ d.

(** Truth value of a dict: it has an entry. *)
Definition dict_nonempty (d : dict) : bool := negb (Nat.eqb (size d) 0).

Definition FIXED_HISTORICAL : dict :=
  <[1992 := float_lit "11.1"]>
    (<[1991 := float_lit "56.6"]> (<[1990 := float_lit "9.7"]> ∅)).

(** *** [fetch_data] *)

(** A cell of a row, cleaned: [strip()], then [strip] of the double quote,
    then [strip] of the single quote, then [replace(",", ".")]. *)
Definition clean_cell (c : text) : text :=
  replace_char "," "." (strip_char SQUOTE (strip_char DQUOTE (strip c))).

(** [1993 <= year <= current_year and -5.0 <= value <= 100.0] *)
Definition in_range (current_year year : Z) (value : float) : bool :=
  (1993 <=? year) && (year <=? current_year)
  && float_le (float_lit "-5.0") value && float_le value (float_lit "100.0").

(** The body of the loop over [i]: the cells [clean[i]] and [clean[i + 1]]
    as a candidate pair.  A [ValueError] of [int] or [float] skips it. *)
Definition scan_pair (current_year : Z) (data : dict) (a b : text) : dict :=
  match py_int a with
  | None => data
  | Some year =>
      match py_float b with
      | None => data
      | Some value =>
          if in_range current_year year value
          then <[year := py_round1 value]> data
          else data
      end
  end.

(** [for i in range(len(clean) - 1)] *)
Fixpoint scan_cells (current_year : Z) (data : dict) (clean : list text) : dict :=
  match clean with
  | a :: rest =>
      match rest with
      | b :: _ => scan_cells current_year (scan_pair current_year data a b) rest
      | [] => data
      end
  | [] => data
  end.

Definition scan_row (current_year : Z) (data : dict) (row : list text) : dict :=
  scan_cells current_year data (map clean_cell row).

(** [for row in rows[1:]] *)
Definition scan_rows (current_year : Z) (data : dict) (rows : list (list text))
  : dict :=
  fold_left (scan_row current_year) rows data.

Definition SEPARATORS : list ascii := [","%char; ";"%char; TAB].

(** [for sep in (",", ";", "\t")]; [None] stands for the [csv.Error] that
    [list(reader)] raises, which no handler of the script catches. *)
Fixpoint try_separators (current_year : Z) (raw : text) (seps : list ascii)
  (data : dict) : option dict :=
  match seps with
  | [] => Some data
  | sep :: seps' =>
      match csv_rows sep raw with
      | None => None
      | Some rows =>
          if (length rows <? 2)%nat then
            try_separators current_year raw seps' data
          else
            let data' := scan_rows current_year data (tl rows) in
            if dict_nonempty data' then Some data'
            else try_separators current_year raw seps' data'
      end
  end.

(** The parse of a response body, from [data = {}] to the end of the loop
    over the separators. *)
Definition parse_response (current_year : Z) (raw : text) : option dict :=
  try_separators current_year raw SEPARATORS ∅.

(** Exceptions that leave the script through no handler. *)
Inductive exn :=
| CsvError   (* csv.Error out of list(reader) *)
| OSError.   (* index.html cannot be opened, for reading or for writing *)

Inductive result (A : Type) :=
| Return (a : A)
| Raise (e : exn).
Arguments Return {A} a.
Arguments Raise {A} e.

(** What the download gives: the exception the [try] of [fetch_data]
    catches, with its message, or the decoded body. *)
Inductive response :=
| Failed (message : text)
| Body (raw : text).

(** The part of the world the script acts on: the text [f.read()] gives
    for index.html ([None] when [open(HTML_FILE, "r")] or the read
    raises), whether [open(HTML_FILE, "w")] succeeds, what the script
    printed to standard error, one entry per [print], and how often it
    wrote the file.  The content is the decoded text, as the script sees
    it; a file that was opened for writing takes the whole new text and is
    read back as it was written.  Progress lines on standard output are
    not recorded. *)
Record world := {
  html_file : option text;
  stderr : list text;
  writes : nat;
  html_writable : bool
}.

Definition eprint (msg : text) (w : world) : world :=
  {| html_file := html_file w; stderr := stderr w ++ [msg];
     writes := writes w; html_writable := html_writable w |}.

(** The world after [f.write(new_html)] into the opened file. *)
Definition written (new_html : text) (w : world) : world :=
  {| html_file := Some new_html; stderr := stderr w;
     writes := S (writes w); html_writable := html_writable w |}.

(** [with open(HTML_FILE, "w", encoding="utf-8") as f: f.write(new_html)];
    [open] raises when the file cannot be written, and nothing is written
    then. *)
Definition write_html (new_html : text) (w : world) : result unit * world :=
  if html_writable w then (Return tt, written new_html w)
  else (Raise OSError, w).

Definition fetch_data (resp : response) (current_year : Z) (w : world)
  : result dict * world :=
  match resp with
  | Failed e => (Return ∅, eprint (str "  CHYBA pri stahovani: " ++ e) w)
  | Body raw =>
      match parse_response current_year raw with
      | None => (Raise CsvError, w)
      | Some data =>
          if dict_nonempty data then (Return data, w)
          else
            (Return data,
             eprint (str "  Cela odpoved:" ++ LF :: firstn 800 raw)
               (eprint (str "  VAROVANI: Z API nebyla nactena zadna data.") w))
      end
  end.

(** *** [build_raw_block] *)

(** [datetime.now()], as far as the script reads it. *)
Record date := {
  date_day : Z;
  date_month : Z;
  date_year : Z
}.

Definition two_digits (n : Z) : text :=
  if n <? 10 then "0"%char :: str_of_nat n else str_of_nat n.

(** [strftime('%d. %m. %Y')], for a year of four digits. *)
Definition strftime_dmy (d : date) : text :=
  two_digits (date_day d) ++ str ". " ++ two_digits (date_month d)
    ++ str ". " ++ str_of_int (date_year d).

(** [d.keys()], in some order. *)
Definition keys (d : dict) : list Z := (map_to_list d).*1.

(** [sorted(d.keys())] *)
Definition sorted_keys (d : dict) : list Z := merge_sort Z.le (keys d).

(** [max(keys)], [None] on an empty sequence. *)
Definition py_max (keys : list Z) : option Z :=
  match keys with
  | [] => None
  | k :: ks => Some (fold_left Z.max ks k)
  end.

Definition NOTE_HIST : text := str "  // CSFR / CSU hist. publikace".
Definition NOTE_LIBERALIZATION : text := str "  // CSFR - liberalizace cen".
Definition NOTE_UPDATED (today : date) : text :=
  str "  // CSU, aktualizovano " ++ strftime_dmy today.

(** The [if]/[elif] chain that chooses the comment of a year. *)
Definition comment_of (today : date) (max_year : option Z) (year : Z) : text :=
  if year =? 1990 then NOTE_HIST
  else if year =? 1991 then NOTE_LIBERALIZATION
  else if year =? 1992 then NOTE_HIST
  else if match max_year with Some m => year =? m | None => false end
       then NOTE_UPDATED today
  else [].

(** ["  {}: {:>5},{}".format(year, value, comment)] *)
Definition format_line (year : Z) (value : float) (comment : text) : text :=
  str "  " ++ str_of_int year ++ str ": " ++ pad_left 5 (float_repr value)
    ++ ","%char :: comment.

(** [combined = {}; combined.update(fixed); combined.update(fetched)] *)
Definition merge (fixed fetched : dict) : dict :=
  dict_update (dict_update ∅ fixed) fetched.

(** The dict [combined] of [build_raw_block]. *)
Definition combine (api_data : dict) : dict := merge FIXED_HISTORICAL api_data.

(** The body of the loop over the sorted years: the line of one year.
    Every year the loop visits is a key of [combined]. *)
Definition line_of (combined : dict) (today : date) (max_year : option Z)
  (year : Z) : option text :=
  match combined !! year with
  | Some value => Some (format_line year value (comment_of today max_year year))
  | None => None
  end.

(** The list [lines] at the end of the loop. *)
Definition block_lines (api_data : dict) (today : date) : list text :=
  let combined := combine api_data in
  let max_year := py_max (keys combined) in
  omap (line_of combined today max_year) (sorted_keys combined).

Definition BLOCK_OPEN : text := str "const RAW = {" ++ [LF].
Definition BLOCK_CLOSE : text := LF :: str "};".

Definition build_raw_block (api_data : dict) (today : date) : text :=
  BLOCK_OPEN ++ join [LF] (block_lines api_data today) ++ BLOCK_CLOSE.

(** *** [update_html] *)

(** A literal text as a pattern. *)
Definition lits (s : text) : list item := map (λ c, One (Chr c)) s.

(** [[^}]+\};] *)
Definition TAIL : list item := [Plus (NotChr "}"); One (Chr "}"); One (Chr ";")].

(** [r"const RAW = \{[^}]+\};"] *)
Definition pattern : list item := lits (str "const RAW = {") ++ TAIL.

Definition MISSING_BLOCK : text :=
  str "  CHYBA: Blok 'const RAW' nebyl v index.html nalezen.".

(** [update_html(new_raw_block)].  The outer [None] marks a replacement
    text with a backslash, which [re_sub_first] does not cover;
    [build_raw_block] never gives one. *)
Definition update_html (new_raw_block : text) (w : world)
  : option (result bool * world) :=
  match html_file w with
  | None => Some (Raise OSError, w)
  | Some html =>
      match re_search pattern html with
      | None => Some (Return false, eprint MISSING_BLOCK w)
      | Some _ =>
          if has_backslash new_raw_block then None
          else
            let new_html := re_sub_first pattern new_raw_block html in
            if text_eqb new_html html then Some (Return false, w)
            else
              match write_html new_html w with
              | (Return _, w') => Some (Return true, w')
              | (Raise e, w') => Some (Raise e, w')
              end
      end
  end.

(** *** The main program *)

(** What a run reads from outside the file system: the outcome of the
    download, the year [fetch_data] reads from the clock, and the date
    [build_raw_block] reads from it. *)
Record env := {
  env_response : response;
  env_current_year : Z;
  env_today : date
}.

(** The exit status of the process: 0 from [sys.exit(0)], 1 when an
    exception ends the run. *)
Definition main (e : env) (w : world) : option (Z * world) :=
  match fetch_data (env_response e) (env_current_year e) w with
  | (Raise _, w1) => Some (1, w1)
  | (Return api_data, w1) =>
      if dict_nonempty api_data then
        match update_html (build_raw_block api_data (env_today e)) w1 with
        | Some (Return _, w2) => Some (0, w2)
        | Some (Raise _, w2) => Some (1, w2)
        | None => None
        end
      else Some (0, w1)
  end.

(** ** Notions the properties are stated with *)

(** What the parser can hold for a year: the year passed the range
    check together with a value, and the entry is that value rounded. *)
Definition parsed_entry (current_year y : Z) (v : float) : Prop :=
  ∃ x, in_range current_year y x = true ∧ v = py_round1 x.

(** The texts the pattern of [update_html] matches: the opening token,
    one or more characters other than a closing brace, the closing brace
    and the semicolon. *)
Definition marker_block (m : text) : Prop :=
  ∃ body, m = str "const RAW = {" ++ body ++ str "};"
          ∧ body ≠ [] ∧ Forall (λ c, c ≠ "}"%char) body.

(** The document has an occurrence of the marker pattern. *)
Definition has_marker (html : text) : Prop :=
  ∃ before m after, html = before ++ m ++ after ∧ marker_block m.

(** Characters a block may hold between its braces without ending the
    match or starting an escape of the replacement template. *)
Definition block_char (c : ascii) : bool :=
  negb (Ascii.eqb c "}") && negb (Ascii.eqb c BACKSLASH).

Abbreviation block_text := (Forall (λ c, block_char c = true)).

(** Characters of a line of a block: block characters other than the
    line feed. *)
Definition line_char (c : ascii) : bool :=
  block_char c && negb (Ascii.eqb c LF).

Abbreviation line_text := (Forall (λ c, line_char c = true)).

(** [s.split("\n")]: the text between the line feeds. *)
Fixpoint split_lines (s : text) : list text :=
  match s with
  | [] => [[]]
  | c :: s' =>
      if Ascii.eqb c LF then [] :: split_lines s'
      else
        match split_lines s' with
        | l :: ls => (c :: l) :: ls
        | [] => [[c]]
        end
  end.

(** The data lines of a serialized block, as a reader of the text finds
    them: [block.split("\n")[1:-1]], the lines between the opening line
    and the closing line. *)
Definition data_lines (block : text) : list text :=
  removelast (tl (split_lines block)).

(** ** Sample inputs *)

(** A comma table with a header and two data rows. *)
Definition sample_raw : text :=
  str "year,value" ++ LF :: str "2023,10.7" ++ LF :: str "2024,2.0" ++ [LF].

Definition sample_data : dict :=
  <[2024 := float_lit "2.0"]> (<[2023 := float_lit "10.7"]> ∅).

Definition sample_today : date :=
  {| date_day := 3; date_month := 11; date_year := 2026 |}.

Definition sample_html : text :=
  str "<script>const RAW = { 1990: 9.7 };</script>".

Definition sample_world : world :=
  {| html_file := Some sample_html; stderr := []; writes := 0;
     html_writable := true |}.

(** The same document, read-only. *)
Definition read_only_world : world :=
  {| html_file := Some sample_html; stderr := []; writes := 0;
     html_writable := false |}.

(** A response in which a carriage return stands inside a line. *)
Definition bare_cr_raw : text := str "a" ++ CR :: str "b".

(** ** Plain tables

    A response whose rows are written one per line, the cells joined by
    the separator, no cell holding the separator, a quote or a line
    break. *)

Definition plain_char (sep ch : ascii) : Prop :=
  ch ≠ sep ∧ ch ≠ DQUOTE ∧ ch ≠ LF ∧ ch ≠ CR.

Definition plain_cell (sep : ascii) (c : text) : Prop :=
  Forall (plain_char sep) c ∧ Z.of_nat (length c) ≤ field_limit.

(** A row of plain cells; the row of one empty cell is left out, since
    its line is empty and reads back as a row without cells. *)
Definition plain_row (sep : ascii) (row : list text) : Prop :=
  row ≠ [] ∧ row ≠ [[]] ∧ Forall (plain_cell sep) row.

Definition csv_line (sep : ascii) (row : list text) : text :=
  join [sep] row ++ [LF].

Definition csv_text (sep : ascii) (rows : list (list text)) : text :=
  concat (map (csv_line sep) rows).

(** ** Sample responses for the parser *)

(** A semicolon table with decimal commas. *)
Definition semicolon_rows : list (list text) :=
  [[str "rok"; str "inflace"]; [str "2023"; str "10,7"]].

(** A value with two fractional digits. *)
Definition two_decimals_raw : text :=
  str "year,value" ++ LF :: str "2020,2.04" ++ [LF].

(** Two rows for the same year. *)
Definition repeated_year_raw : text :=
  str "year,value" ++ LF :: str "2020,1.0" ++ LF :: str "2020,2.0" ++ [LF].




(** ** Reading a serialized line back *)

(** The text before the first [c], and the text after it. *)
Fixpoint break_at (c : ascii) (s : text) : text * text :=
  match s with
  | [] => ([], [])
  | x :: s' =>
      if Ascii.eqb x c then ([], s')
      else let '(a, b) := break_at c s' in (x :: a, b)
  end.

(** The numeric part of a data line: the year is the text before the
    colon, the value the text between the colon and the next comma; what
    follows that comma (the annotation) is ignored. *)
Definition reparse_line (line : text) : option (Z * float) :=
  let '(ytext, rest) := break_at ":" line in
  let '(vtext, _) := break_at "," rest in
  match py_int ytext, py_float vtext with
  | Some y, Some v => Some (y, v)
  | _, _ => None
  end.

(** The number k/10 written with one fractional digit. *)
Definition one_decimal (neg : bool) (k : Z) : text :=
  (if neg then ["-"%char] else [])
    ++ str_of_nat (k / 10) ++ "."%char :: [digit_char (k mod 10)].

(** The tenths the range check lets through: 0.0 to 100.0, and -0.0 to
    -5.0. *)
Definition tenth_in_range (neg : bool) (k : Z) : Prop :=
  0 ≤ k ∧ k ≤ (if neg then 50 else 1000).

Definition tenth_value (v : float) : Prop :=
  ∃ neg k, tenth_in_range neg k ∧ v = float_of_decimal neg k (-1).

(** What a data line is for a year and a value. *)
Definition data_line (line : text) (item : Z * float) : Prop :=
  ∃ neg k comment,
    tenth_in_range neg k
    ∧ item.2 = float_of_decimal neg k (-1)
    ∧ line = str "  " ++ str_of_int item.1 ++ str ": "
               ++ pad_left 5 (one_decimal neg k) ++ ","%char :: comment
    ∧ length (pad_left 5 (one_decimal neg k)) = 5%nat.

(** Checks run over the finitely many years and values a block can hold. *)
Definition option_float_eqb (a b : option float) : bool :=
  match a, b with
  | Some x, Some y => float_eqb x y
  | None, None => true
  | _, _ => false
  end.

Definition lacks (c : ascii) (s : text) : bool :=
  forallb (λ x, negb (Ascii.eqb x c)) s.

Definition value_check (neg : bool) (k : Z) : bool :=
  let x := float_of_decimal neg k (-1) in
  let field := pad_left 5 (one_decimal neg k) in
  text_eqb (float_repr x) (one_decimal neg k)
  && Nat.eqb (length field) 5
  && lacks "," (SPACE :: field)
  && option_float_eqb (py_float (SPACE :: field)) (Some x).

Definition round_check (neg : bool) (k : Z) : bool :=
  let x := float_of_decimal neg k (-1) in float_eqb (py_round1 x) x.

Definition year_check (y : Z) : bool :=
  let t := str "  " ++ str_of_int y in
  lacks ":" t
  && match py_int t with
     | Some z => Z.eqb z y
     | None => false
     end.

Definition upto (n : Z) : list Z := map Z.of_nat (seq 0 (Z.to_nat n)).

(** ** Further notions: runs of the whole script *)




(** ** Further notions: what the parser reads *)

(** Two cells next to each other in a row. *)
Definition adjacent (a b : text) (row : list text) : Prop :=
  ∃ before after, row = before ++ a :: b :: after.

(** Some row holds adjacent cells that read as the year [y] and as a
    value within range whose rounding is [v]. *)
Definition accepted_in (current_year : Z) (rows : list (list text))
  (y : Z) (v : float) : Prop :=
  ∃ row a b x,
    In row rows ∧ adjacent a b row
    ∧ py_int (clean_cell a) = Some y
    ∧ py_float (clean_cell b) = Some x
    ∧ in_range current_year y x = true
    ∧ v = py_round1 x.

Definition bounds_check (neg : bool) (k : Z) : bool :=
  let x := float_of_decimal neg k (-1) in
  float_le (float_lit "-5.0") x && float_le x (float_lit "100.0").

(** ** Further notions: cells *)

(** The first and the last character of the text fail the test [p]. *)
Definition edges_fail (p : ascii → bool) (s : text) : Prop :=
  ∃ a b, head s = Some a ∧ last s = Some b ∧ p a = false ∧ p b = false.

(** A cell content that begins and ends with a character that is neither
    white space nor a quote. *)
Definition bare (core : text) : Prop :=
  edges_fail is_space core
  ∧ edges_fail (Ascii.eqb DQUOTE) core
  ∧ edges_fail (Ascii.eqb SQUOTE) core.

(** ** Further notions: tables of readings *)

(** A year with a value given in tenths, as a table row holds it. *)
Record reading := {
  reading_year : Z;
  reading_neg : bool;
  reading_tenths : Z
}.

Definition reading_value (r : reading) : float :=
  float_of_decimal (reading_neg r) (reading_tenths r) (-1).

Definition reading_entry (r : reading) : Z * float :=
  (reading_year r, reading_value r).

Definition valid_reading (current_year : Z) (r : reading) : Prop :=
  1993 ≤ reading_year r ≤ current_year
  ∧ tenth_in_range (reading_neg r) (reading_tenths r).

(** The row of a reading: the year and the value with a decimal point. *)
Definition point_row (r : reading) : list text :=
  [str_of_int (reading_year r);
   one_decimal (reading_neg r) (reading_tenths r)].

(** The value with a decimal comma. *)
Definition comma_decimal (neg : bool) (k : Z) : text :=
  replace_char "." "," (one_decimal neg k).

(** The row of a reading with a decimal comma. *)
Definition comma_row (r : reading) : list text :=
  [str_of_int (reading_year r);
   comma_decimal (reading_neg r) (reading_tenths r)].

(** [dict(pairs)]: the pairs written into an empty dict in order, so
    that a later pair replaces an earlier one with the same key. *)
Definition dict_of_pairs (pairs : list (Z * float)) : dict :=
  fold_left (λ d p, <[p.1 := p.2]> d) pairs ∅.

(** Checks run over the finitely many years and tenths. *)
Definition plain_cellb (sep : ascii) (c : text) : bool :=
  forallb (λ ch, negb (Ascii.eqb ch sep) && negb (Ascii.eqb ch DQUOTE)
                 && negb (Ascii.eqb ch LF) && negb (Ascii.eqb ch CR)) c
  && (Z.of_nat (length c) <=? 16).

Definition year_cell_check (y : Z) : bool :=
  let c := str_of_int y in
  plain_cellb "," c && plain_cellb ";" c && plain_cellb TAB c
  && negb (text_eqb c [])
  && match py_int (clean_cell c) with
     | Some z => Z.eqb z y
     | None => false
     end.

Definition point_cell_check (neg : bool) (k : Z) : bool :=
  let c := one_decimal neg k in
  plain_cellb "," c && plain_cellb ";" c && plain_cellb TAB c
  && option_float_eqb (py_float (clean_cell c))
       (Some (float_of_decimal neg k (-1))).

(** The sign and the integer digits of a tenth. *)
Definition tenth_int_text (neg : bool) (k : Z) : text :=
  (if neg then ["-"%char] else []) ++ str_of_nat (k / 10).

(** What the comma reader makes of the semicolon row of a reading: it
    breaks the line at the decimal comma. *)
Definition comma_view (r : reading) : list text :=
  [str_of_int (reading_year r) ++ ";"%char
     :: tenth_int_text (reading_neg r) (reading_tenths r);
   [digit_char (reading_tenths r mod 10)]].

Definition comma_cell_check (neg : bool) (k : Z) : bool :=
  let c := comma_decimal neg k in
  text_eqb c (tenth_int_text neg k ++ ","%char :: [digit_char (k mod 10)])
  && plain_cellb "," (tenth_int_text neg k)
  && plain_cellb "," [digit_char (k mod 10)]
  && plain_cellb ";" c
  && option_float_eqb (py_float (clean_cell c))
       (Some (float_of_decimal neg k (-1))).

(** * Properties *)

#[local] Arguments Ascii.eqb : simpl never.

(** ** Merge *)

Section Merge.
Implicit Types fixed fetched : dict.

Lemma merge_lookup fixed fetched (y : Z) :
  merge fixed fetched !! y =
    match fetched !! y with
    | Some v => Some v
    | None => fixed !! y
    end.
Proof.
  unfold merge, dict_update.
  rewrite lookup_union, lookup_union, lookup_empty.
  destruct (fetched !! y), (fixed !! y); reflexivity.
Qed.

(** C7: merge is right-biased, keeps the fixed entries the fetched
    mapping does not have, and commutes when the key sets are disjoint. *)
Theorem merge_right_biased_commutative fixed fetched :
  (∀ y v, fetched !! y = Some v → merge fixed fetched !! y = Some v)
  ∧ (∀ y, fetched !! y = None → merge fixed fetched !! y = fixed !! y)
  ∧ (dom fixed ## dom fetched → merge fixed fetched = merge fetched fixed).
Proof.
  split; [|split].
  - intros y v Hy. rewrite merge_lookup, Hy. reflexivity.
  - intros y Hy. rewrite merge_lookup, Hy. reflexivity.
  - intros Hdisj. apply map_eq. intros y. rewrite !merge_lookup.
    destruct (fetched !! y) as [v|] eqn:Hv, (fixed !! y) as [u|] eqn:Hu;
      try reflexivity.
    exfalso. apply (Hdisj y); apply elem_of_dom; eauto.
Qed.
End Merge.

Lemma merge_example :
  let fixed : dict := {[1990 := float_lit "9.7"]} in
  let fetched : dict := {[2024 := float_lit "2.0"]} in
  dom fixed ## dom fetched ∧ merge fixed fetched = merge fetched fixed.
Proof.
  intros fixed fetched.
  assert (Hd : dom fixed ## dom fetched).
  { subst fixed fetched. rewrite !dom_singleton. set_solver. }
  split; [exact Hd|].
  exact (proj2 (proj2 (merge_right_biased_commutative fixed fetched)) Hd).
Defined.

(** ** The parser keeps its range checks *)

Section ScanInvariant.
Variable current_year : Z.
Variable P : dict → Prop.
Hypothesis P_insert :
  ∀ d y x, P d → in_range current_year y x = true → P (<[y := py_round1 x]> d).

Lemma scan_pair_inv d a b : P d → P (scan_pair current_year d a b).
Proof.
  intros Hd. unfold scan_pair.
  destruct (py_int a) as [y|]; [|exact Hd].
  destruct (py_float b) as [x|]; [|exact Hd].
  destruct (in_range current_year y x) eqn:Hr; [|exact Hd].
  apply P_insert; assumption.
Qed.

Lemma scan_cells_inv clean : ∀ d, P d → P (scan_cells current_year d clean).
Proof.
  induction clean as [|a rest IH]; intros d Hd; simpl; [exact Hd|].
  destruct rest as [|b rest']; [exact Hd|].
  apply IH. apply scan_pair_inv. exact Hd.
Qed.

Lemma scan_rows_inv rows : ∀ d, P d → P (scan_rows current_year d rows).
Proof.
  unfold scan_rows.
  induction rows as [|row rows IH]; intros d Hd; simpl; [exact Hd|].
  apply IH. apply scan_cells_inv. exact Hd.
Qed.

Lemma try_separators_inv raw seps :
  ∀ d d', P d → try_separators current_year raw seps d = Some d' → P d'.
Proof.
  induction seps as [|sep seps IH]; intros d d' Hd Hrun; simpl in Hrun.
  - congruence.
  - destruct (csv_rows sep raw) as [rows|]; [|discriminate].
    destruct (length rows <? 2)%nat; [eapply IH; eassumption|].
    pose proof (scan_rows_inv (tl rows) d Hd) as Hd'.
    destruct (dict_nonempty _); [congruence|].
    eapply IH; eassumption.
Qed.
End ScanInvariant.

Lemma parse_response_entries current_year raw api :
  parse_response current_year raw = Some api →
  ∀ y v, api !! y = Some v → parsed_entry current_year y v.
Proof.
  intros Hrun.
  refine (try_separators_inv current_year
            (λ d, ∀ y v, d !! y = Some v → parsed_entry current_year y v)
            _ raw SEPARATORS ∅ api _ Hrun).
  - intros d y x Hd Hr y' v'. rewrite lookup_insert. case_decide.
    + intros [= <-]. subst y'. exists x. split; [exact Hr|reflexivity].
    + apply Hd.
  - intros y v. rewrite lookup_empty. discriminate.
Qed.

Lemma in_range_year current_year y x :
  in_range current_year y x = true → 1993 ≤ y ≤ current_year.
Proof.
  unfold in_range. rewrite !andb_true_iff. lia.
Qed.

Lemma combine_lookup api (y : Z) :
  combine api !! y =
    match api !! y with
    | Some v => Some v
    | None => FIXED_HISTORICAL !! y
    end.
Proof. apply merge_lookup. Qed.

(** C6: the keys of a parsed mapping lie in [1993, current_year], so the
    merged mapping holds the years 1990, 1991 and 1992 with the
    hard-coded values. *)
Theorem fixed_years_never_overwritten current_year raw api :
  parse_response current_year raw = Some api →
  (∀ y, is_Some (api !! y) → 1993 ≤ y ≤ current_year)
  ∧ combine api !! 1990 = Some (float_lit "9.7")
  ∧ combine api !! 1991 = Some (float_lit "56.6")
  ∧ combine api !! 1992 = Some (float_lit "11.1")
  ∧ ∀ y, 1990 ≤ y ≤ 1992 → combine api !! y = FIXED_HISTORICAL !! y.
Proof.
  intros Hrun.
  assert (Hkeys : ∀ y, is_Some (api !! y) → 1993 ≤ y ≤ current_year).
  { intros y [v Hv].
    destruct (parse_response_entries _ _ _ Hrun y v Hv) as (x & Hr & _).
    eapply in_range_year; eassumption. }
  assert (Hfix : ∀ y, 1990 ≤ y ≤ 1992 → combine api !! y = FIXED_HISTORICAL !! y).
  { intros y Hy. rewrite combine_lookup.
    destruct (api !! y) as [v|] eqn:Hv; [|reflexivity].
    specialize (Hkeys y (ex_intro _ v Hv)). lia. }
  split; [exact Hkeys|].
  repeat split; try (rewrite Hfix by lia; reflexivity). exact Hfix.
Qed.

(** ** The marker pattern *)

Lemma pattern_eq : pattern = lits (str "const RAW = {") ++ TAIL.
Proof. reflexivity. Qed.

Lemma match_here_plus a re c s :
  match_here (Plus a :: re) (c :: s) =
    if atom_matches a c then
      match match_here (Plus a :: re) s with
      | Some r => Some r
      | None => match_here re s
      end
    else None.
Proof. reflexivity. Qed.

Lemma match_here_one a re c s :
  match_here (One a :: re) (c :: s) =
    if atom_matches a c then match_here re s else None.
Proof. reflexivity. Qed.

Lemma match_here_lits l re s r :
  match_here (lits l ++ re) s = Some r ↔
  ∃ s', s = l ++ s' ∧ match_here re s' = Some r.
Proof.
  revert s. induction l as [|c l IH]; intros s; simpl.
  - split; [eauto|]. intros (s' & -> & H). exact H.
  - destruct s as [|x s]; [split; [discriminate|intros (s' & [=] & _)]|].
    destruct (Ascii.eqb_spec x c) as [->|Hne].
    + rewrite IH. split; intros (s' & Hs & H); exists s'; split; congruence.
    + split; [discriminate|]. intros (s' & [= Hx _] & _). contradiction.
Qed.

Lemma match_tail_close s r :
  match_here [One (Chr "}"); One (Chr ";")] s = Some r ↔ s = "}"%char :: ";"%char :: r.
Proof.
  simpl. destruct s as [|x [|y s]]; simpl.
  - split; discriminate.
  - destruct (Ascii.eqb_spec x "}"); split; discriminate.
  - destruct (Ascii.eqb_spec x "}") as [->|Hx];
      [destruct (Ascii.eqb_spec y ";") as [->|Hy]|];
      split; try discriminate; try congruence.
Qed.

Lemma match_tail_iff s r :
  match_here TAIL s = Some r ↔
  ∃ body, body ≠ [] ∧ Forall (λ c, c ≠ "}"%char) body
          ∧ s = body ++ "}"%char :: ";"%char :: r.
Proof.
  unfold TAIL. split.
  - revert r. induction s as [|c s IH]; intros r; [discriminate|].
    rewrite match_here_plus. simpl atom_matches.
    destruct (Ascii.eqb_spec c "}") as [->|Hc]; [discriminate|]. simpl negb.
    destruct (match_here (Plus (NotChr "}") :: _) s) as [r'|] eqn:Hs.
    + intros [= ->]. destruct (IH r eq_refl) as (body & Hne & Hall & ->).
      exists (c :: body). repeat split; [discriminate|by constructor].
    + intros Hclose. apply match_tail_close in Hclose. subst s.
      exists [c]. repeat split; [discriminate|by repeat constructor].
  - intros (body & Hne & Hall & ->).
    induction body as [|c body IH]; [contradiction|].
    apply Forall_cons_1 in Hall as [Hc Hall].
    simpl app. rewrite match_here_plus. simpl atom_matches.
    destruct (Ascii.eqb_spec c "}") as [->|_]; [contradiction|]. simpl negb.
    destruct body as [|c' body].
    + simpl app. rewrite match_here_plus. simpl. reflexivity.
    + rewrite IH; [reflexivity|discriminate|exact Hall].
Qed.

Lemma match_pattern_iff s r :
  match_here pattern s = Some r ↔
  ∃ body, body ≠ [] ∧ Forall (λ c, c ≠ "}"%char) body
          ∧ s = str "const RAW = {" ++ body ++ str "};" ++ r.
Proof.
  rewrite pattern_eq, match_here_lits. split.
  - intros (s' & -> & H). apply match_tail_iff in H as (body & ? & ? & ->).
    exists body. auto.
  - intros (body & ? & ? & ->). eexists. split; [reflexivity|].
    apply match_tail_iff. exists body. auto.
Qed.

Lemma match_marker_block m after :
  marker_block m → match_here pattern (m ++ after) = Some after.
Proof.
  intros (body & -> & Hne & Hall). apply match_pattern_iff.
  exists body. repeat split; [exact Hne|exact Hall|].
  by rewrite <- !app_assoc.
Qed.

Lemma match_here_suffix s r :
  match_here pattern s = Some r →
  ∃ m, s = m ++ r ∧ marker_block m ∧ firstn (length s - length r) s = m.
Proof.
  intros H. apply match_pattern_iff in H as (body & Hne & Hall & ->).
  exists (str "const RAW = {" ++ body ++ str "};").
  assert (Heq : str "const RAW = {" ++ body ++ str "};" ++ r
                = (str "const RAW = {" ++ body ++ str "};") ++ r)
    by (by rewrite <- !app_assoc).
  split; [exact Heq|]. split; [exists body; auto|].
  rewrite Heq, length_app.
  replace (_ + _ - _)%nat with (length (str "const RAW = {" ++ body ++ str "};")) by lia.
  apply take_app_length.
Qed.

Lemma re_search_unfold re s :
  re_search re s =
    match match_here re s with
    | Some rest => Some ([], firstn (length s - length rest) s, rest)
    | None =>
        match s with
        | [] => None
        | c :: s' =>
            match re_search re s' with
            | Some (before, m, after) => Some (c :: before, m, after)
            | None => None
            end
        end
    end.
Proof. destruct s; reflexivity. Qed.

(** [re_search] returns a decomposition of the text around a marker
    block. *)
Lemma re_search_some html before m after :
  re_search pattern html = Some (before, m, after) →
  html = before ++ m ++ after ∧ marker_block m.
Proof.
  revert before. induction html as [|c html IH]; intros before;
    rewrite re_search_unfold.
  - destruct (match_here pattern []) as [rest|] eqn:Hm; [|discriminate].
    apply match_pattern_iff in Hm as (body & _ & _ & [=]).
  - destruct (match_here pattern (c :: html)) as [rest|] eqn:Hm.
    + destruct (match_here_suffix _ _ Hm) as (m' & Hs & Hb & Hf).
      rewrite Hf. intros [= <- <- <-]. auto.
    + destruct (re_search pattern html) as [[[b' m'] a']|]; [|discriminate].
      intros [= <- <- <-]. destruct (IH b' eq_refl) as [-> Hb]. auto.
Qed.

Lemma re_search_app_none before s :
  re_search pattern (before ++ s) = None → re_search pattern s = None.
Proof.
  induction before as [|c before IH]; [auto|].
  simpl app. rewrite re_search_unfold.
  destruct (match_here pattern _); [discriminate|].
  destruct (re_search pattern (before ++ s)) as [[[? ?] ?]|]; [discriminate|auto].
Qed.

Lemma re_search_none html :
  re_search pattern html = None ↔ ¬ has_marker html.
Proof.
  split.
  - intros Hnone (before & m & after & -> & Hb).
    apply re_search_app_none in Hnone.
    rewrite re_search_unfold, (match_marker_block _ after Hb) in Hnone.
    discriminate.
  - intros Hno. destruct (re_search pattern html) as [[[b m] a]|] eqn:E;
      [|reflexivity].
    exfalso. apply Hno. apply re_search_some in E as [-> Hb].
    exists b, m, a. auto.
Qed.

(** *** Replacing one marker block by another keeps the match in place *)

Section Swap.
Variables m1 m2 after : text.
Hypothesis block1 : marker_block m1.
Hypothesis block2 : marker_block m2.

Lemma marker_block_head : ∃ t, m1 = "c"%char :: t.
Proof. destruct block1 as (body & -> & _). eexists. reflexivity. Qed.

Lemma tail_swap p :
  is_Some (match_here TAIL (p ++ m1 ++ after)) →
  is_Some (match_here TAIL (p ++ m2 ++ after)).
Proof.
  induction p as [|x p IH].
  - intros _. destruct block2 as (body & -> & Hne & Hall).
    exists after. apply match_tail_iff.
    exists (str "const RAW = {" ++ body). split; [discriminate|]. split.
    + apply Forall_app. split; [|exact Hall].
      cbv [str list_ascii_of_string]. repeat constructor; discriminate.
    + simpl. by rewrite <- !app_assoc.
  - simpl app. unfold TAIL in *. rewrite !match_here_plus.
    destruct (atom_matches _ x); [|intros [? [=]]].
    destruct (match_here _ (p ++ m1 ++ after)) as [r1|] eqn:H1.
    + intros _. destruct IH as [r2 ->]; [eauto|eauto].
    + intros [r Hr]. apply match_tail_close in Hr.
      destruct marker_block_head as [t Ht].
      destruct p as [|y [|z p]]; simpl in Hr.
      * rewrite Ht in Hr. discriminate.
      * rewrite Ht in Hr. discriminate.
      * injection Hr as -> -> _.
        destruct (match_here _ _); [eauto|]. simpl. eauto.
Qed.

Lemma lits_swap l : ∀ p,
  Forall (λ c, c ≠ "c"%char) l →
  is_Some (match_here (lits l ++ TAIL) (p ++ m1 ++ after)) →
  is_Some (match_here (lits l ++ TAIL) (p ++ m2 ++ after)).
Proof.
  induction l as [|c l IH]; intros p Hl.
  - apply tail_swap.
  - apply Forall_cons_1 in Hl as [Hc Hl]. simpl.
    destruct p as [|x p].
    + destruct marker_block_head as [t Ht]. rewrite Ht. simpl.
      destruct (Ascii.eqb_spec "c" c) as [Heq|_]; [congruence|].
      intros [? [=]].
    + simpl. destruct (Ascii.eqb x c); [|intros [? [=]]].
      apply IH. exact Hl.
Qed.

Lemma pattern_swap x p :
  is_Some (match_here pattern (x :: p ++ m1 ++ after)) →
  is_Some (match_here pattern (x :: p ++ m2 ++ after)).
Proof.
  rewrite pattern_eq.
  change (lits (str "const RAW = {") ++ TAIL) with
    (One (Chr "c") :: (lits (str "onst RAW = {") ++ TAIL)).
  rewrite !match_here_one. unfold atom_matches.
  destruct (Ascii.eqb x "c"); [|intros [? [=]]].
  apply lits_swap. cbv [str list_ascii_of_string].
  repeat constructor; discriminate.
Qed.
End Swap.

Lemma re_search_marker_block m after :
  marker_block m → re_search pattern (m ++ after) = Some ([], m, after).
Proof.
  intros Hb. rewrite re_search_unfold, (match_marker_block _ _ Hb).
  rewrite length_app.
  replace (_ + _ - _)%nat with (length m) by lia.
  by rewrite take_app_length.
Qed.

(** The leftmost match stays where it is when the matched block is
    replaced by another marker block. *)
Lemma re_search_replace m2 before m1 after :
  marker_block m2 →
  re_search pattern (before ++ m1 ++ after) = Some (before, m1, after) →
  re_search pattern (before ++ m2 ++ after) = Some (before, m2, after).
Proof.
  intros Hb2. induction before as [|c before IH].
  - intros _. simpl app. by apply re_search_marker_block.
  - simpl app. rewrite (re_search_unfold _ (c :: _ ++ m1 ++ _)).
    destruct (match_here pattern (c :: before ++ m1 ++ after)) eqn:H1;
      [discriminate|].
    destruct (re_search pattern (before ++ m1 ++ after))
      as [[[b m] a]|] eqn:Hs; [|discriminate].
    intros [= -> -> ->].
    assert (Hb1 : marker_block m1).
    { apply re_search_some in Hs. tauto. }
    rewrite re_search_unfold.
    destruct (match_here pattern (c :: before ++ m2 ++ after)) eqn:H2.
    + exfalso.
      destruct (pattern_swap m2 m1 after Hb2 Hb1 c before) as [r Hr]; [eauto|].
      congruence.
    + rewrite IH; reflexivity.
Qed.

Lemma re_sub_first_found html before m after repl :
  re_search pattern html = Some (before, m, after) →
  re_sub_first pattern repl html = before ++ repl ++ after.
Proof. intros H. unfold re_sub_first. rewrite H. reflexivity. Qed.

(** Patching twice is patching once with the later block. *)
Lemma re_sub_first_twice html b1 b2 :
  marker_block b1 → has_marker html →
  re_sub_first pattern b2 (re_sub_first pattern b1 html)
  = re_sub_first pattern b2 html.
Proof.
  intros Hb1 Hm.
  destruct (re_search pattern html) as [[[before m] after]|] eqn:Hs.
  - rewrite (re_sub_first_found _ _ _ _ b1 Hs), (re_sub_first_found _ _ _ _ b2 Hs).
    pose proof (re_search_some _ _ _ _ Hs) as [-> _].
    apply re_sub_first_found with (m := b1).
    by apply re_search_replace with (m1 := m).
  - apply re_search_none in Hs. contradiction.
Qed.

(** ** The characters of a serialized block *)

Lemma forallb_line_text (s : text) : forallb line_char s = true → line_text s.
Proof.
  induction s as [|c s IH]; simpl; [constructor|].
  rewrite andb_true_iff. intros [Hc Hs]. constructor; auto.
Qed.

Ltac literal_line_text := apply forallb_line_text; vm_compute; reflexivity.

Lemma line_text_In (s : text) :
  (∀ c, In c s → line_char c = true) → line_text s.
Proof. intros H. apply Forall_forall. intros c Hc. apply H, list_elem_of_In, Hc. Qed.

Lemma line_text_incl (s t : text) :
  line_text s → (∀ c, In c t → In c s) → line_text t.
Proof.
  intros Hs Hi. apply line_text_In. intros c Hc.
  rewrite Forall_forall in Hs. apply Hs, list_elem_of_In, Hi, Hc.
Qed.

Lemma digit_char_line d : 0 ≤ d < 10 → line_char (digit_char d) = true.
Proof.
  intros Hd.
  assert (H : d = 0 ∨ d = 1 ∨ d = 2 ∨ d = 3 ∨ d = 4 ∨ d = 5 ∨ d = 6
              ∨ d = 7 ∨ d = 8 ∨ d = 9) by lia.
  repeat (destruct H as [->|H]; [reflexivity|]). subst d. reflexivity.
Qed.

Lemma digits_of_line fuel : ∀ n acc,
  line_text acc → line_text (digits_of fuel n acc).
Proof.
  induction fuel as [|fuel IH]; intros n acc Hacc; simpl; [exact Hacc|].
  assert (Hd : line_text (digit_char (n mod 10) :: acc)).
  { constructor; [|exact Hacc]. apply digit_char_line.
    apply Z.mod_pos_bound. lia. }
  destruct (n <? 10); [exact Hd|]. apply IH, Hd.
Qed.

Lemma str_of_nat_line n : line_text (str_of_nat n).
Proof. apply digits_of_line. constructor. Qed.

Lemma str_of_int_line n : line_text (str_of_int n).
Proof.
  unfold str_of_int. destruct (n <? 0); [|apply str_of_nat_line].
  constructor; [reflexivity|apply str_of_nat_line].
Qed.

Lemma lstrip_by_In p s c : In c (lstrip_by p s) → In c s.
Proof.
  induction s as [|x s IH]; simpl; [auto|].
  destruct (p x); [auto|]. simpl. auto.
Qed.

Lemma rstrip_by_In p s c : In c (rstrip_by p s) → In c s.
Proof.
  unfold rstrip_by. intros H. apply in_rev in H.
  apply lstrip_by_In in H. by apply in_rev.
Qed.

Lemma strip_by_In p s c : In c (strip_by p s) → In c s.
Proof. unfold strip_by. intros H. by apply rstrip_by_In, lstrip_by_In in H. Qed.

Lemma zeros_line n : line_text (zeros n).
Proof.
  apply line_text_In. intros c Hc. apply repeat_spec in Hc. by subst c.
Qed.

Lemma exponent_text_line ex : line_text (exponent_text ex).
Proof.
  unfold exponent_text. constructor; [by destruct (ex <? 0)|].
  destruct (_ <? 2); [constructor; [reflexivity|]|]; apply str_of_nat_line.
Qed.

Lemma layout_digits_line ds decpt :
  line_text ds → line_text (layout_digits ds decpt).
Proof.
  intros Hds. unfold layout_digits.
  destruct (_ || _).
  - destruct ds as [|d rest]; [constructor|].
    apply Forall_cons_1 in Hds as [Hd Hrest].
    constructor; [exact Hd|]. apply Forall_app. split.
    + destruct rest; [constructor|]. constructor; [reflexivity|exact Hrest].
    + constructor; [reflexivity|apply exponent_text_line].
  - destruct (decpt <=? 0).
    + repeat (apply Forall_app; split); auto using zeros_line.
      literal_line_text.
    + destruct (_ <=? decpt).
      * repeat (apply Forall_app; split); auto using zeros_line.
        literal_line_text.
      * apply Forall_app. split; [by apply Forall_take|].
        constructor; [reflexivity|by apply Forall_drop].
Qed.

Lemma shortest_digits_line m e : line_text (fst (shortest_digits m e)).
Proof.
  unfold shortest_digits. destruct (ratio_of _ _) as [num den].
  destruct (shortest_from _ _ _ _ _ _) as [c p]. simpl.
  apply line_text_incl with (s := str_of_nat c); [apply str_of_nat_line|].
  intros ch. apply rstrip_by_In.
Qed.

Lemma float_repr_line x : line_text (float_repr x).
Proof.
  destruct x as [s|s| |s m e]; simpl.
  - destruct s; literal_line_text.
  - destruct s; literal_line_text.
  - literal_line_text.
  - pose proof (shortest_digits_line m e) as H.
    destruct (shortest_digits m e) as [ds decpt]. simpl in H.
    apply Forall_app. split; [destruct s; repeat constructor|].
    by apply layout_digits_line.
Qed.

Lemma pad_left_line n s : line_text s → line_text (pad_left n s).
Proof.
  intros Hs. apply Forall_app. split; [|exact Hs].
  apply line_text_In. intros c Hc. apply repeat_spec in Hc. by subst c.
Qed.

Lemma two_digits_line n : line_text (two_digits n).
Proof.
  unfold two_digits. destruct (n <? 10); [constructor; [reflexivity|]|];
    apply str_of_nat_line.
Qed.

Lemma strftime_dmy_line d : line_text (strftime_dmy d).
Proof.
  unfold strftime_dmy.
  repeat (apply Forall_app; split);
    auto using two_digits_line, str_of_int_line; literal_line_text.
Qed.

Lemma comment_of_line today max_year year :
  line_text (comment_of today max_year year).
Proof.
  unfold comment_of, NOTE_UPDATED.
  destruct (year =? 1990); [literal_line_text|].
  destruct (year =? 1991); [literal_line_text|].
  destruct (year =? 1992); [literal_line_text|].
  destruct (match max_year with Some m => year =? m | None => false end);
    [|constructor].
  apply Forall_app. split; [literal_line_text|apply strftime_dmy_line].
Qed.

Lemma format_line_line year value comment :
  line_text comment → line_text (format_line year value comment).
Proof.
  intros Hc. unfold format_line.
  apply Forall_app. split; [literal_line_text|].
  apply Forall_app. split; [apply str_of_int_line|].
  apply Forall_app. split; [literal_line_text|].
  apply Forall_app. split; [apply pad_left_line, float_repr_line|].
  constructor; [reflexivity|exact Hc].
Qed.

Lemma block_lines_line_text api today :
  Forall line_text (block_lines api today).
Proof.
  unfold block_lines. apply Forall_forall. intros l Hl.
  apply list_elem_of_omap in Hl as (year & _ & Hl). unfold line_of in Hl.
  destruct (combine api !! year) as [value|]; [|discriminate].
  injection Hl as <-. apply format_line_line, comment_of_line.
Qed.

Lemma line_text_block (s : text) : line_text s → block_text s.
Proof.
  intros H. eapply Forall_impl; [exact H|]. intros c Hc.
  unfold line_char in Hc. by apply andb_true_iff in Hc as [Hc _].
Qed.

Lemma line_text_no_lf (s : text) : line_text s → Forall (λ c, c ≠ LF) s.
Proof.
  intros H. eapply Forall_impl; [exact H|]. intros c Hc ->. discriminate.
Qed.

Lemma block_lines_block api today :
  Forall block_text (block_lines api today).
Proof.
  eapply Forall_impl; [apply block_lines_line_text|]. apply line_text_block.
Qed.

Lemma join_block sep parts :
  block_text sep → Forall block_text parts → block_text (join sep parts).
Proof.
  intros Hsep. induction 1 as [|p rest Hp Hrest IH]; [constructor|].
  simpl. destruct rest; [exact Hp|].
  apply Forall_app. split; [exact Hp|]. apply Forall_app. auto.
Qed.

Lemma block_char_brace c : block_char c = true → c ≠ "}"%char.
Proof. intros H ->. discriminate. Qed.

Lemma block_text_no_backslash s : block_text s → has_backslash s = false.
Proof.
  unfold has_backslash. induction 1 as [|c s Hc _ IH]; [reflexivity|].
  simpl. rewrite IH, orb_false_r.
  unfold block_char in Hc. apply andb_true_iff in Hc as [_ Hc].
  destruct (Ascii.eqb_spec c BACKSLASH) as [->|Hne]; [discriminate|].
  by apply Ascii.eqb_neq.
Qed.

(** The serializer's output is a marker block without a backslash. *)
Lemma build_raw_block_marker api today :
  marker_block (build_raw_block api today).
Proof.
  exists (LF :: join [LF] (block_lines api today) ++ [LF]).
  split; [|split; [discriminate|]].
  - unfold build_raw_block, BLOCK_OPEN, BLOCK_CLOSE.
    change (LF :: join [LF] (block_lines api today) ++ [LF])
      with ([LF] ++ join [LF] (block_lines api today) ++ [LF]).
    rewrite <- !app_assoc. reflexivity.
  - assert (H : block_text (LF :: join [LF] (block_lines api today) ++ [LF])).
    { constructor; [reflexivity|]. apply Forall_app. split.
      - apply join_block; [by repeat constructor|apply block_lines_block].
      - by repeat constructor. }
    eapply Forall_impl; [exact H|]. intros c. apply block_char_brace.
Qed.

Lemma build_raw_block_no_backslash api today :
  has_backslash (build_raw_block api today) = false.
Proof.
  unfold build_raw_block, has_backslash. rewrite !existsb_app.
  fold (has_backslash (join [LF] (block_lines api today))).
  rewrite (block_text_no_backslash (join [LF] (block_lines api today)));
    [reflexivity|].
  apply join_block; [by repeat constructor|apply block_lines_block].
Qed.

(** ** The patcher *)

Lemma text_eqb_eq a b : text_eqb a b = true ↔ a = b.
Proof.
  revert b. induction a as [|x a IH]; intros [|y b]; simpl;
    try (split; [discriminate|congruence]); [tauto|].
  rewrite andb_true_iff, IH. split.
  - intros [Hxy ->]. apply Ascii.eqb_eq in Hxy. by subst.
  - intros [= -> ->]. split; [apply Ascii.eqb_refl|reflexivity].
Qed.

Lemma text_eqb_refl a : text_eqb a a = true.
Proof. by apply text_eqb_eq. Qed.

Lemma text_eqb_neq a b : a ≠ b → text_eqb a b = false.
Proof.
  intros Hne. destruct (text_eqb a b) eqn:H; [|reflexivity].
  by apply text_eqb_eq in H.
Qed.

Lemma has_marker_search html :
  has_marker html → ∃ before m after,
    re_search pattern html = Some (before, m, after).
Proof.
  intros Hm. destruct (re_search pattern html) as [[[b m] a]|] eqn:Hs; [eauto|].
  apply re_search_none in Hs. contradiction.
Qed.

(** C4: when the document has no occurrence of the marker pattern, the
    patch returns false, prints the diagnostic to standard error and
    neither writes the file nor changes its content. *)
Theorem missing_marker_aborts block w html :
  html_file w = Some html →
  ¬ has_marker html →
  ∃ w', update_html block w = Some (Return false, w')
        ∧ html_file w' = Some html
        ∧ writes w' = writes w
        ∧ stderr w' = stderr w ++ [MISSING_BLOCK].
Proof.
  intros Hfile Hno. apply re_search_none in Hno.
  exists (eprint MISSING_BLOCK w). unfold update_html.
  rewrite Hfile, Hno. simpl. auto.
Qed.

Lemma missing_marker_aborts_example :
  ∃ w', update_html (build_raw_block sample_data sample_today)
          {| html_file := Some (str "<html></html>"); stderr := []; writes := 0;
             html_writable := true |}
        = Some (Return false, w')
        ∧ html_file w' = Some (str "<html></html>")
        ∧ writes w' = 0%nat
        ∧ stderr w' = [MISSING_BLOCK].
Proof.
  apply (missing_marker_aborts _
           {| html_file := Some (str "<html></html>"); stderr := []; writes := 0;
              html_writable := true |}
           (str "<html></html>")).
  - reflexivity.
  - apply re_search_none. vm_compute. reflexivity.
Defined.

(** The patch on a document in which the search finds a block: nothing
    happens when the new text is the old one; otherwise the file is
    written, or [open] raises when it cannot be written. *)
Lemma update_html_found block w html before m after :
  html_file w = Some html →
  re_search pattern html = Some (before, m, after) →
  has_backslash block = false →
  update_html block w =
    if text_eqb (before ++ block ++ after) html then Some (Return false, w)
    else if html_writable w
         then Some (Return true, written (before ++ block ++ after) w)
         else Some (Raise OSError, w).
Proof.
  intros Hfile Hs Hb. unfold update_html, write_html.
  rewrite Hfile, Hs, Hb, (re_sub_first_found _ _ _ _ _ Hs).
  destruct (text_eqb _ _); [reflexivity|].
  destruct (html_writable w); reflexivity.
Qed.

(** The new text is the old one exactly when the new block is the block
    that was found. *)
Lemma replaced_same before block m after :
  text_eqb (before ++ block ++ after) (before ++ m ++ after) = true ↔ block = m.
Proof.
  rewrite text_eqb_eq. split; [|by intros ->].
  intros H. by apply app_inv_head, app_inv_tail in H.
Qed.

(** A second patch with the same block, after a patch that returned. *)
Lemma update_html_again block w html changed w1 :
  html_file w = Some html →
  has_marker html →
  marker_block block →
  has_backslash block = false →
  update_html block w = Some (Return changed, w1) →
  update_html block w1 = Some (Return false, w1).
Proof.
  intros Hfile Hm Hblock Hb.
  destruct (has_marker_search _ Hm) as (before & m & after & Hs).
  rewrite (update_html_found _ _ _ _ _ _ Hfile Hs Hb).
  destruct (text_eqb (before ++ block ++ after) html) eqn:Heq.
  - intros [= <- <-].
    by rewrite (update_html_found _ _ _ _ _ _ Hfile Hs Hb), Heq.
  - destruct (html_writable w); [|discriminate]. intros [= <- <-].
    pose proof (re_search_some _ _ _ _ Hs) as [-> _].
    rewrite (update_html_found block _ (before ++ block ++ after) before block after);
      [|reflexivity|by apply re_search_replace with (m1 := m)|exact Hb].
    by rewrite text_eqb_refl.
Qed.

(** C3: on a document with the marker pattern, a second patch with the
    same serialized block, applied to what the first patch left, returns
    false and leaves the world as it was: no write, same content.  The
    first patch returns whenever the file can be written. *)
Theorem patch_idempotent api today w html :
  html_file w = Some html →
  has_marker html →
  let block := build_raw_block api today in
  (html_writable w = true →
   ∃ changed w1 w2,
     update_html block w = Some (Return changed, w1)
     ∧ update_html block w1 = Some (Return false, w2)
     ∧ writes w2 = writes w1
     ∧ html_file w2 = html_file w1)
  ∧ (∀ changed w1,
       update_html block w = Some (Return changed, w1) →
       ∃ w2,
         update_html block w1 = Some (Return false, w2)
         ∧ writes w2 = writes w1
         ∧ html_file w2 = html_file w1).
Proof.
  intros Hfile Hm block.
  pose proof (build_raw_block_no_backslash api today) as Hb. fold block in Hb.
  pose proof (build_raw_block_marker api today) as Hblock. fold block in Hblock.
  assert (Hagain : ∀ changed w1,
             update_html block w = Some (Return changed, w1) →
             ∃ w2, update_html block w1 = Some (Return false, w2)
                   ∧ writes w2 = writes w1 ∧ html_file w2 = html_file w1).
  { intros changed w1 Hfirst. exists w1.
    by rewrite (update_html_again _ _ _ _ _ Hfile Hm Hblock Hb Hfirst). }
  split; [|exact Hagain]. intros Hw.
  destruct (has_marker_search _ Hm) as (before & m & after & Hs).
  pose proof (update_html_found _ _ _ _ _ _ Hfile Hs Hb) as Hfirst.
  rewrite Hw in Hfirst.
  destruct (text_eqb (before ++ block ++ after) html).
  - destruct (Hagain _ _ Hfirst) as (w2 & H2). exists false, w, w2. auto.
  - destruct (Hagain _ _ Hfirst) as (w2 & H2).
    exists true, (written (before ++ block ++ after) w), w2. auto.
Qed.

Lemma sample_html_has_marker : has_marker sample_html.
Proof.
  exists (str "<script>"), (str "const RAW = { 1990: 9.7 };"), (str "</script>").
  split; [reflexivity|]. exists (str " 1990: 9.7 ").
  split; [reflexivity|]. split; [discriminate|].
  cbv [str list_ascii_of_string]. repeat constructor; discriminate.
Qed.

Lemma patch_idempotent_example :
  ∃ changed w1 w2,
    update_html (build_raw_block sample_data sample_today) sample_world
    = Some (Return changed, w1)
    ∧ update_html (build_raw_block sample_data sample_today) w1
      = Some (Return false, w2)
    ∧ writes w2 = writes w1
    ∧ html_file w2 = html_file w1.
Proof.
  apply (patch_idempotent sample_data sample_today sample_world sample_html).
  - reflexivity.
  - exact sample_html_has_marker.
  - reflexivity.
Defined.

(** C5: a serialized block is an instance of the marker pattern: it
    begins with the opening token, has no closing brace before its final
    one, and is matched as a whole.  So when [update_html] has put it
    into a document (in place of the block found there, on a file that
    can be written), [update_html] of a later run with any serialized
    block finds this very block, between the same text before and after
    it, and replaces exactly it; it writes when the two blocks differ. *)
Theorem serialized_block_is_marker api today :
  let block := build_raw_block api today in
  (∃ body, block = str "const RAW = {" ++ body ++ str "};"
           ∧ body ≠ [] ∧ Forall (λ c, c ≠ "}"%char) body)
  ∧ (∀ after, match_here pattern (block ++ after) = Some after)
  ∧ (∀ before after, is_Some (re_search pattern (before ++ block ++ after)))
  ∧ (∀ w html,
       html_file w = Some html →
       has_marker html →
       html_writable w = true →
       ∃ before m after changed w1,
         html = before ++ m ++ after
         ∧ marker_block m
         ∧ update_html block w = Some (Return changed, w1)
         ∧ html_file w1 = Some (before ++ block ++ after)
         ∧ (changed = true ↔ m ≠ block)
         ∧ ∀ later_api later_day,
             let later := build_raw_block later_api later_day in
             ∃ changed' w2,
               update_html later w1 = Some (Return changed', w2)
               ∧ html_file w2 = Some (before ++ later ++ after)
               ∧ (changed' = true ↔ later ≠ block)
               ∧ writes w2 = (if changed' then S (writes w1) else writes w1)).
Proof.
  intros block.
  pose proof (build_raw_block_marker api today) as Hblock. fold block in Hblock.
  pose proof (build_raw_block_no_backslash api today) as Hb. fold block in Hb.
  split; [exact Hblock|]. split; [|split].
  - intros after. by apply match_marker_block.
  - intros before after.
    destruct (has_marker_search (before ++ block ++ after))
      as (b & m & a & ->); [|eauto].
    exists before, block, after. auto.
  - intros w html Hfile Hm Hw.
    destruct (has_marker_search _ Hm) as (before & m & after & Hs).
    pose proof (re_search_some _ _ _ _ Hs) as [-> Hmb].
    assert (Hs' : re_search pattern (before ++ block ++ after)
                  = Some (before, block, after))
      by (by apply re_search_replace with (m1 := m)).
    pose proof (update_html_found _ _ _ _ _ _ Hfile Hs Hb) as Hfirst.
    rewrite Hw in Hfirst.
    assert (Hlater : ∀ w1,
               html_file w1 = Some (before ++ block ++ after) →
               html_writable w1 = true →
               ∀ later_api later_day,
                 let later := build_raw_block later_api later_day in
                 ∃ changed' w2,
                   update_html later w1 = Some (Return changed', w2)
                   ∧ html_file w2 = Some (before ++ later ++ after)
                   ∧ (changed' = true ↔ later ≠ block)
                   ∧ writes w2 = (if changed' then S (writes w1) else writes w1)).
    { intros w1 Hfile1 Hw1 later_api later_day later.
      pose proof (build_raw_block_no_backslash later_api later_day) as Hbl.
      fold later in Hbl.
      pose proof (update_html_found _ _ _ _ _ _ Hfile1 Hs' Hbl) as Hsecond.
      rewrite Hw1 in Hsecond.
      destruct (text_eqb (before ++ later ++ after) (before ++ block ++ after))
        eqn:Heq.
      - apply replaced_same in Heq. exists false, w1.
        split; [exact Hsecond|]. split; [by rewrite Heq|].
        split; [|reflexivity]. split; [discriminate|]. by intros [].
      - exists true, (written (before ++ later ++ after) w1).
        split; [exact Hsecond|]. split; [reflexivity|].
        split; [|reflexivity]. split; [|reflexivity].
        intros _ Hsame.
        apply (proj2 (replaced_same before later block after)) in Hsame.
        congruence. }
    destruct (text_eqb (before ++ block ++ after) (before ++ m ++ after)) eqn:Heq.
    + apply replaced_same in Heq. exists before, m, after, false, w.
      split; [reflexivity|]. split; [exact Hmb|]. split; [exact Hfirst|].
      split; [by rewrite Hfile, Heq|].
      split; [split; [discriminate|by intros []]|].
      apply Hlater; [by rewrite Hfile, Heq|exact Hw].
    + exists before, m, after, true, (written (before ++ block ++ after) w).
      split; [reflexivity|]. split; [exact Hmb|]. split; [exact Hfirst|].
      split; [reflexivity|]. split.
      * split; [|reflexivity]. intros _ Hsame. subst m.
        rewrite text_eqb_refl in Heq. discriminate.
      * apply Hlater; [reflexivity|exact Hw].
Qed.

Lemma serialized_block_is_marker_example :
  ∃ before m after changed w1,
    sample_html = before ++ m ++ after
    ∧ marker_block m
    ∧ update_html (build_raw_block sample_data sample_today) sample_world
      = Some (Return changed, w1)
    ∧ html_file w1
      = Some (before ++ build_raw_block sample_data sample_today ++ after)
    ∧ (changed = true ↔ m ≠ build_raw_block sample_data sample_today)
    ∧ ∀ later_api later_day,
        let later := build_raw_block later_api later_day in
        ∃ changed' w2,
          update_html later w1 = Some (Return changed', w2)
          ∧ html_file w2 = Some (before ++ later ++ after)
          ∧ (changed' = true
             ↔ later ≠ build_raw_block sample_data sample_today)
          ∧ writes w2 = (if changed' then S (writes w1) else writes w1).
Proof.
  apply (proj2 (proj2 (proj2 (serialized_block_is_marker sample_data sample_today)))
           sample_world sample_html).
  - reflexivity.
  - exact sample_html_has_marker.
  - reflexivity.
Defined.

(** ** Exit status *)

Lemma sample_parse : parse_response 2026 sample_raw = Some sample_data.
Proof. vm_compute. reflexivity. Qed.

Lemma fixed_years_never_overwritten_example :
  (∀ y, is_Some (sample_data !! y) → 1993 ≤ y ≤ 2026)
  ∧ combine sample_data !! 1990 = Some (float_lit "9.7")
  ∧ combine sample_data !! 1991 = Some (float_lit "56.6")
  ∧ combine sample_data !! 1992 = Some (float_lit "11.1")
  ∧ ∀ y, 1990 ≤ y ≤ 1992 → combine sample_data !! y = FIXED_HISTORICAL !! y.
Proof.
  apply (fixed_years_never_overwritten 2026 sample_raw sample_data).
  vm_compute. reflexivity.
Defined.

Lemma bare_cr_raises current_year : parse_response current_year bare_cr_raw = None.
Proof. reflexivity. Qed.

Lemma sample_block_differs :
  text_eqb
    (str "<script>" ++ build_raw_block sample_data sample_today ++ str "</script>")
    sample_html = false.
Proof. vm_compute. reflexivity. Qed.

(** C2, at the inputs where it fails: a response with a carriage return
    inside a line makes [list(reader)] raise [csv.Error]; an unreadable
    index.html makes the [open] that reads it raise; and a readable
    index.html that cannot be written makes the [open] that writes it
    raise, once there is a new block to write.  No handler catches any of
    them, and the run ends with exit status 1. *)
Theorem uncaught_exception_exit_status current_year today w :
  main {| env_response := Body bare_cr_raw;
          env_current_year := current_year;
          env_today := today |} w = Some (1, w)
  ∧ main {| env_response := Body sample_raw;
            env_current_year := 2026;
            env_today := today |}
         {| html_file := None; stderr := stderr w; writes := writes w;
            html_writable := html_writable w |}
    = Some (1, {| html_file := None; stderr := stderr w; writes := writes w;
                  html_writable := html_writable w |})
  ∧ main {| env_response := Body sample_raw;
            env_current_year := 2026;
            env_today := sample_today |} read_only_world
    = Some (1, read_only_world).
Proof.
  split; [|split].
  - unfold main, fetch_data. cbn [env_response env_current_year].
    rewrite bare_cr_raises. reflexivity.
  - unfold main, fetch_data. cbn [env_response env_current_year].
    rewrite sample_parse. reflexivity.
  - unfold main, fetch_data. cbn [env_response env_current_year env_today].
    rewrite sample_parse.
    replace (dict_nonempty sample_data) with true by reflexivity.
    rewrite (update_html_found _ read_only_world sample_html (str "<script>")
               (str "const RAW = { 1990: 9.7 };") (str "</script>"));
      [|reflexivity|vm_compute; reflexivity|apply build_raw_block_no_backslash].
    rewrite sample_block_differs. reflexivity.
Qed.

(** Every run in which no exception escapes ends with exit status 0. *)
Lemma main_exit_zero e w html :
  html_file w = Some html →
  html_writable w = true →
  (∀ raw, env_response e = Body raw →
          parse_response (env_current_year e) raw ≠ None) →
  ∃ w', main e w = Some (0, w').
Proof.
  intros Hfile Hw Hparse. unfold main, fetch_data.
  destruct (env_response e) as [msg|raw] eqn:Hresp.
  - simpl. eauto.
  - specialize (Hparse raw eq_refl).
    destruct (parse_response _ raw) as [data|]; [|contradiction].
    destruct (dict_nonempty data) eqn:Hne; rewrite ?Hne; [|eauto].
    unfold update_html, write_html. rewrite Hfile.
    destruct (re_search pattern html) as [[[b m] a]|]; [|eauto].
    rewrite build_raw_block_no_backslash, Hw.
    destruct (text_eqb _ _); eauto.
Qed.

(** ** Range validation *)

Lemma scan_pair_eq current_year data a b y v :
  py_int a = Some y → py_float b = Some v →
  scan_pair current_year data a b =
    if in_range current_year y v then <[y := py_round1 v]> data else data.
Proof. intros Ha Hb. unfold scan_pair. rewrite Ha, Hb. reflexivity. Qed.

Lemma in_range_intro current_year y v :
  1993 ≤ y ≤ current_year →
  float_le (float_lit "-5.0") v = true → float_le v (float_lit "100.0") = true →
  in_range current_year y v = true.
Proof.
  intros [Hlo Hhi] H1 H2. unfold in_range. rewrite H1, H2.
  apply Z.leb_le in Hlo, Hhi. rewrite Hlo, Hhi. reflexivity.
Qed.

Lemma in_range_year_out current_year y v :
  y < 1993 ∨ current_year < y → in_range current_year y v = false.
Proof.
  intros Hy. unfold in_range.
  destruct (Z.leb_spec 1993 y), (Z.leb_spec y current_year);
    try reflexivity; lia.
Qed.

Lemma in_range_value_out current_year y v :
  float_le (float_lit "-5.0") v && float_le v (float_lit "100.0") = false →
  in_range current_year y v = false.
Proof.
  intros Hv. unfold in_range. rewrite <- !andb_assoc, Hv.
  by rewrite !andb_false_r.
Qed.

(** C8: the range check is inclusive at both ends.  With a year text in
    range, the value texts -5.0 and 100.0 are stored and -5.1 and 100.1
    are not; with a value text in range, the years 1993 and the current
    year are stored and 1992 and the next year are not. *)
Theorem range_check_inclusive current_year data ty tcy tnext tv y v :
  1993 ≤ current_year →
  py_int ty = Some y → 1993 ≤ y ≤ current_year →
  py_int tcy = Some current_year →
  py_int tnext = Some (current_year + 1) →
  py_float tv = Some v →
  float_le (float_lit "-5.0") v = true → float_le v (float_lit "100.0") = true →
  scan_pair current_year data ty (str "-5.0") = <[y := float_lit "-5.0"]> data
  ∧ scan_pair current_year data ty (str "100.0") = <[y := float_lit "100.0"]> data
  ∧ scan_pair current_year data ty (str "-5.1") = data
  ∧ scan_pair current_year data ty (str "100.1") = data
  ∧ scan_pair current_year data (str "1993") tv = <[1993 := py_round1 v]> data
  ∧ scan_pair current_year data tcy tv = <[current_year := py_round1 v]> data
  ∧ scan_pair current_year data (str "1992") tv = data
  ∧ scan_pair current_year data tnext tv = data.
Proof.
  intros Hcy Hty Hy Htcy Htnext Htv Hlo Hhi.
  assert (Elow : py_float (str "-5.0") = Some (float_lit "-5.0"))
    by (vm_compute; reflexivity).
  assert (Ehigh : py_float (str "100.0") = Some (float_lit "100.0"))
    by (vm_compute; reflexivity).
  assert (Ebelow : py_float (str "-5.1") = Some (float_lit "-5.1"))
    by (vm_compute; reflexivity).
  assert (Eabove : py_float (str "100.1") = Some (float_lit "100.1"))
    by (vm_compute; reflexivity).
  assert (E1993 : py_int (str "1993") = Some 1993) by (vm_compute; reflexivity).
  assert (E1992 : py_int (str "1992") = Some 1992) by (vm_compute; reflexivity).
  repeat split.
  - rewrite (scan_pair_eq _ _ _ _ _ _ Hty Elow), in_range_intro;
      [|exact Hy|vm_compute; reflexivity|vm_compute; reflexivity].
    by replace (py_round1 (float_lit "-5.0")) with (float_lit "-5.0")
      by (vm_compute; reflexivity).
  - rewrite (scan_pair_eq _ _ _ _ _ _ Hty Ehigh), in_range_intro;
      [|exact Hy|vm_compute; reflexivity|vm_compute; reflexivity].
    by replace (py_round1 (float_lit "100.0")) with (float_lit "100.0")
      by (vm_compute; reflexivity).
  - rewrite (scan_pair_eq _ _ _ _ _ _ Hty Ebelow), in_range_value_out;
      [reflexivity|]. vm_compute. reflexivity.
  - rewrite (scan_pair_eq _ _ _ _ _ _ Hty Eabove), in_range_value_out;
      [reflexivity|]. vm_compute. reflexivity.
  - rewrite (scan_pair_eq _ _ _ _ _ _ E1993 Htv), in_range_intro;
      [reflexivity|lia|exact Hlo|exact Hhi].
  - rewrite (scan_pair_eq _ _ _ _ _ _ Htcy Htv), in_range_intro;
      [reflexivity|lia|exact Hlo|exact Hhi].
  - rewrite (scan_pair_eq _ _ _ _ _ _ E1992 Htv), in_range_year_out;
      [reflexivity|lia].
  - rewrite (scan_pair_eq _ _ _ _ _ _ Htnext Htv), in_range_year_out;
      [reflexivity|lia].
Qed.

Lemma range_check_inclusive_example :
  let data : dict := ∅ in
  scan_pair 2026 data (str "2000") (str "-5.0") = <[2000 := float_lit "-5.0"]> data
  ∧ scan_pair 2026 data (str "2000") (str "100.0") = <[2000 := float_lit "100.0"]> data
  ∧ scan_pair 2026 data (str "2000") (str "-5.1") = data
  ∧ scan_pair 2026 data (str "2000") (str "100.1") = data
  ∧ scan_pair 2026 data (str "1993") (str "2.0") = <[1993 := py_round1 (float_lit "2.0")]> data
  ∧ scan_pair 2026 data (str "2026") (str "2.0") = <[2026 := py_round1 (float_lit "2.0")]> data
  ∧ scan_pair 2026 data (str "1992") (str "2.0") = data
  ∧ scan_pair 2026 data (str "2027") (str "2.0") = data.
Proof.
  intros data.
  apply (range_check_inclusive 2026 data (str "2000") (str "2026") (str "2027")
           (str "2.0") 2000 (float_lit "2.0"));
    first [lia | vm_compute; reflexivity].
Defined.

(** ** The serializer *)

Lemma keys_elem (d : dict) y : y ∈ keys d ↔ is_Some (d !! y).
Proof.
  unfold keys. rewrite list_elem_of_fmap. split.
  - intros ([k v] & -> & Hkv). apply elem_of_map_to_list in Hkv. eauto.
  - intros [v Hv]. exists (y, v). split; [reflexivity|].
    by apply elem_of_map_to_list.
Qed.

Lemma sorted_keys_elem (d : dict) y : y ∈ sorted_keys d ↔ is_Some (d !! y).
Proof.
  unfold sorted_keys. rewrite merge_sort_Permutation. apply keys_elem.
Qed.




Lemma block_lines_elem api today y v :
  combine api !! y = Some v →
  format_line y v (comment_of today (py_max (keys (combine api))) y)
    ∈ block_lines api today.
Proof.
  intros Hy. unfold block_lines. apply list_elem_of_omap.
  exists y. split; [apply sorted_keys_elem; eauto|].
  unfold line_of. rewrite Hy. reflexivity.
Qed.


(** *** The lines of the text [build_raw_block] returns *)

Lemma split_lines_line s rest :
  Forall (λ c, c ≠ LF) s →
  split_lines (s ++ LF :: rest) = s :: split_lines rest.
Proof.
  induction 1 as [|c s Hc _ IH]; [reflexivity|].
  cbn [app split_lines]. rewrite IH.
  by rewrite (proj2 (Ascii.eqb_neq c LF) Hc).
Qed.

Lemma split_lines_joined parts rest :
  Forall (Forall (λ c, c ≠ LF)) parts → parts ≠ [] →
  split_lines (join [LF] parts ++ LF :: rest) = parts ++ split_lines rest.
Proof.
  induction 1 as [|p parts Hp Hparts IH]; intros Hne; [contradiction|].
  destruct parts as [|q parts].
  - cbn [join app]. by apply split_lines_line.
  - change (join [LF] (p :: q :: parts))
      with (p ++ LF :: join [LF] (q :: parts)).
    rewrite <- app_assoc. cbn [app].
    rewrite split_lines_line by exact Hp.
    rewrite IH by discriminate. reflexivity.
Qed.

Lemma block_lines_no_lf api today :
  Forall (Forall (λ c, c ≠ LF)) (block_lines api today).
Proof.
  eapply Forall_impl; [apply block_lines_line_text|]. apply line_text_no_lf.
Qed.

Lemma block_lines_nonempty api today : block_lines api today ≠ [].
Proof.
  assert (H : is_Some (combine api !! 1990)).
  { rewrite combine_lookup. destruct (api !! 1990); [eauto|].
    unfold FIXED_HISTORICAL.
    rewrite lookup_insert_ne, lookup_insert_ne, lookup_insert_eq by lia.
    eauto. }
  destruct H as [v Hv]. intros Hnil.
  pose proof (block_lines_elem api today 1990 v Hv) as Hin.
  rewrite Hnil in Hin. inversion Hin.
Qed.

(** The text is the opening line, the lines of the years and the closing
    line, and none of these holds a line feed. *)
Lemma split_lines_block api today :
  split_lines (build_raw_block api today)
  = str "const RAW = {" :: block_lines api today ++ [str "};"].
Proof.
  unfold build_raw_block, BLOCK_OPEN, BLOCK_CLOSE.
  rewrite <- app_assoc.
  change ([LF] ++ join [LF] (block_lines api today) ++ LF :: str "};")
    with (LF :: join [LF] (block_lines api today) ++ LF :: str "};").
  rewrite split_lines_line by (apply line_text_no_lf; literal_line_text).
  rewrite split_lines_joined
    by (apply block_lines_no_lf || apply block_lines_nonempty).
  reflexivity.
Qed.

Lemma data_lines_block api today :
  data_lines (build_raw_block api today) = block_lines api today.
Proof.
  unfold data_lines. rewrite split_lines_block. cbn [tl].
  apply removelast_last.
Qed.



(** ** Reading a plain table *)

Section PlainTable.
Variable sep : ascii.
Hypothesis sep_not_quote : sep ≠ DQUOTE.
Hypothesis sep_not_lf : sep ≠ LF.
Hypothesis sep_not_cr : sep ≠ CR.

Lemma plain_char_step ch :
  plain_char sep ch →
  is_newline ch = false ∧ Ascii.eqb ch DQUOTE = false ∧ Ascii.eqb ch sep = false.
Proof.
  intros (Hs & Hq & Hl & Hc). unfold is_newline.
  repeat split; repeat (apply orb_false_intro); by apply Ascii.eqb_neq.
Qed.

Lemma sep_step :
  is_newline sep = false ∧ Ascii.eqb sep DQUOTE = false ∧ Ascii.eqb sep sep = true.
Proof.
  unfold is_newline. repeat split; [apply orb_false_intro| |apply Ascii.eqb_refl];
    by apply Ascii.eqb_neq.
Qed.

Lemma add_char_ok st f fs ch :
  Z.of_nat (length f) < field_limit →
  parse_add_char {| state := st; field := f; fields := fs |} ch
  = Some {| state := st; field := f ++ [ch]; fields := fs |}.
Proof.
  intros Hlen. unfold parse_add_char. cbn [field state fields].
  destruct (Z.leb_spec field_limit (Z.of_nat (length f))); [lia|reflexivity].
Qed.

(** Inside an unquoted field the characters of a plain cell are added
    one by one. *)
Lemma feed_in_field c : ∀ f fs rest,
  Forall (plain_char sep) c →
  Z.of_nat (length (f ++ c)) ≤ field_limit →
  feed_line sep {| state := IN_FIELD; field := f; fields := fs |} (c ++ rest)
  = feed_line sep {| state := IN_FIELD; field := f ++ c; fields := fs |} rest.
Proof.
  induction c as [|ch c IH]; intros f fs rest Hc Hlen.
  - by rewrite app_nil_r.
  - apply Forall_cons_1 in Hc as [Hch Hc].
    destruct (plain_char_step _ Hch) as (Hnl & Hq & Hs).
    rewrite length_app in Hlen. simpl length in Hlen.
    cbn [app]. cbn [feed_line]. unfold parse_process_char at 1.
    cbn [state]. rewrite Hnl, Hs, add_char_ok by lia.
    rewrite IH; [|exact Hc|rewrite !length_app; simpl; lia].
    by rewrite <- app_assoc.
Qed.

(** A plain cell read from the start of a field, up to the character
    [stop] that ends it (the separator or the line feed). *)
Lemma feed_cell st c fs rest :
  st = START_RECORD ∨ st = START_FIELD →
  plain_cell sep c → c ≠ [] →
  feed_line sep {| state := st; field := []; fields := fs |} (c ++ rest)
  = feed_line sep {| state := IN_FIELD; field := c; fields := fs |} rest.
Proof.
  intros Hst [Hc Hlen] Hne. destruct c as [|ch c]; [contradiction|].
  pose proof Hc as Hc'. apply Forall_cons_1 in Hc' as [Hch Hcs].
  destruct (plain_char_step _ Hch) as (Hnl & Hq & Hs).
  simpl length in Hlen.
  cbn [app]. cbn [feed_line].
  assert (Hstep : parse_process_char sep
                    {| state := st; field := []; fields := fs |} (Some ch)
                  = Some {| state := IN_FIELD; field := [ch]; fields := fs |}).
  { unfold parse_process_char. cbn [state].
    destruct Hst as [-> | ->]; rewrite Hnl, Hq, Hs, add_char_ok;
      try reflexivity; unfold field_limit; simpl; lia. }
  rewrite Hstep.
  apply (feed_in_field c [ch] fs rest Hcs). simpl. lia.
Qed.

Lemma feed_row cs : ∀ c st fs,
  st = START_RECORD ∨ st = START_FIELD →
  (st = START_RECORD → c :: cs ≠ [[]]) →
  Forall (plain_cell sep) (c :: cs) →
  feed_line sep {| state := st; field := []; fields := fs |}
    (csv_line sep (c :: cs))
  = Some {| state := START_RECORD; field := []; fields := fs ++ c :: cs |}.
Proof.
  destruct sep_step as (Hnl & Hq & Hs).
  unfold csv_line.
  induction cs as [|c2 cs IH]; intros c st fs Hst Hrow Hall;
    apply Forall_cons_1 in Hall as [Hc Hcs].
  - simpl join. destruct c as [|ch c].
    + destruct Hst as [-> | ->]; [by destruct Hrow|]. reflexivity.
    + rewrite feed_cell; [reflexivity|exact Hst|exact Hc|discriminate].
  - change (join [sep] (c :: c2 :: cs)) with (c ++ [sep] ++ join [sep] (c2 :: cs)).
    rewrite <- !app_assoc.
    destruct c as [|ch c].
    + cbn [app]. cbn [feed_line].
      assert (Hstep : parse_process_char sep
                        {| state := st; field := []; fields := fs |} (Some sep)
                      = Some {| state := START_FIELD; field := [];
                                fields := fs ++ [[]] |}).
      { unfold parse_process_char. cbn [state].
        destruct Hst as [-> | ->]; rewrite Hnl, Hq, Hs; reflexivity. }
      cbn [app]. cbn [feed_line]. rewrite Hstep.
      rewrite IH; [|by right|discriminate|exact Hcs].
      by rewrite <- app_assoc.
    + rewrite feed_cell; [|exact Hst|exact Hc|discriminate].
      cbn [app]. cbn [feed_line]. unfold parse_process_char at 1.
      cbn [state]. rewrite Hnl, Hs.
      unfold parse_save_field, set_state. cbn [state field fields].
      rewrite IH; [|by right|discriminate|exact Hcs].
      by rewrite <- app_assoc.
Qed.

Lemma join_plain row :
  Forall (plain_cell sep) row → Forall (λ ch, ch ≠ LF) (join [sep] row).
Proof.
  induction 1 as [|c row [Hc _] Hrow IH]; [constructor|].
  assert (Hc' : Forall (λ ch, ch ≠ LF) c).
  { eapply Forall_impl; [exact Hc|]. intros ch H. apply H. }
  simpl. destruct row; [exact Hc'|].
  apply Forall_app. split; [exact Hc'|]. constructor; [exact sep_not_lf|exact IH].
Qed.

Lemma io_lines_line l rest :
  Forall (λ ch, ch ≠ LF) l →
  io_lines ((l ++ [LF]) ++ rest) = (l ++ [LF]) :: io_lines rest.
Proof.
  induction 1 as [|ch l Hch Hl IH]; simpl.
  - reflexivity.
  - destruct (Ascii.eqb_spec ch LF) as [->|_]; [contradiction|].
    rewrite IH. reflexivity.
Qed.

Lemma io_lines_csv_text rows :
  Forall (plain_row sep) rows →
  io_lines (csv_text sep rows) = map (csv_line sep) rows.
Proof.
  unfold csv_text. induction 1 as [|row rows (_ & _ & Hrow) Hrows IH]; simpl.
  - reflexivity.
  - unfold csv_line at 1. rewrite io_lines_line by (by apply join_plain).
    rewrite IH. reflexivity.
Qed.

Lemma read_rows_plain rows :
  Forall (plain_row sep) rows →
  read_rows sep parse_reset (map (csv_line sep) rows) = Some rows.
Proof.
  induction 1 as [|row rows (Hne & Hne1 & Hrow) Hrows IH]; simpl.
  - reflexivity.
  - destruct row as [|c cs]; [contradiction|].
    unfold parse_reset at 1.
    rewrite feed_row; [|by left|intros _; exact Hne1|exact Hrow].
    simpl. rewrite IH. reflexivity.
Qed.

(** The reader gives back the rows of a plain table. *)
Lemma csv_rows_plain rows :
  Forall (plain_row sep) rows → csv_rows sep (csv_text sep rows) = Some rows.
Proof.
  intros H. unfold csv_rows. rewrite io_lines_csv_text by exact H.
  by apply read_rows_plain.
Qed.
End PlainTable.

(** ** The parser stores the pairs it accepts *)

Section LastPairWins.
Variable current_year : Z.
Variable y : Z.



Lemma scan_cells_cons d a b rest :
  scan_cells current_year d (a :: b :: rest)
  = scan_cells current_year (scan_pair current_year d a b) (b :: rest).
Proof. reflexivity. Qed.



End LastPairWins.

Lemma dict_nonempty_false d : dict_nonempty d = false → d = ∅.
Proof.
  unfold dict_nonempty. intros H. apply map_size_empty_iff.
  apply negb_false_iff, Nat.eqb_eq in H. exact H.
Qed.

Lemma dict_nonempty_lookup (d : dict) y v : d !! y = Some v → dict_nonempty d = true.
Proof.
  intros Hy. unfold dict_nonempty. apply negb_true_iff, Nat.eqb_neq.
  intros H0. apply map_size_empty_iff in H0. subst d.
  by rewrite lookup_empty in Hy.
Qed.


Lemma separators_plain sep :
  In sep SEPARATORS → sep ≠ DQUOTE ∧ sep ≠ LF ∧ sep ≠ CR.
Proof.
  intros [<-|[<-|[<-|[]]]]; repeat split; discriminate.
Qed.

(** ** Values that pass the range check are rounded to tenths in range *)

Lemma ratio_scale m e t :
  0 ≤ t → 0 ≤ e + t →
  (ratio_of m e).1 * 2 ^ t = m * 2 ^ (e + t) * (ratio_of m e).2.
Proof.
  intros Ht Het. unfold ratio_of. destruct (Z.leb_spec 0 e); simpl.
  - rewrite Z.pow_add_r by lia. ring.
  - rewrite <- Z.mul_assoc, <- Z.pow_add_r by lia. f_equal. f_equal. lia.
Qed.

Lemma ratio_of_den_pos m e : 0 < (ratio_of m e).2.
Proof.
  unfold ratio_of. destruct (Z.leb_spec 0 e); simpl; [lia|].
  apply Z.pow_pos_nonneg; lia.
Qed.

Lemma ratio_of_num_nonneg m e : 0 ≤ m → 0 ≤ (ratio_of m e).1.
Proof.
  intros Hm. unfold ratio_of. destruct (Z.leb_spec 0 e); simpl; [|lia].
  apply Z.mul_nonneg_nonneg; [lia|]. apply Z.pow_nonneg. lia.
Qed.

Lemma ratio_of_mul m c e :
  ratio_of (m * c) e = ((ratio_of m e).1 * c, (ratio_of m e).2).
Proof.
  unfold ratio_of. destruct (0 <=? e); simpl; f_equal. ring.
Qed.

(** Comparison of magnitudes is comparison of the exact fractions. *)
Lemma magnitude_le_ratio m1 e1 m2 e2 :
  magnitude_compare m1 e1 m2 e2 ≠ Gt →
  (ratio_of (Zpos m1) e1).1 * (ratio_of (Zpos m2) e2).2
  ≤ (ratio_of (Zpos m2) e2).1 * (ratio_of (Zpos m1) e1).2.
Proof.
  unfold magnitude_compare. intros Hcmp.
  set (e := Z.min e1 e2) in *. set (t := Z.max 0 (- e)).
  assert (Hle : Zpos m1 * 2 ^ (e1 - e) ≤ Zpos m2 * 2 ^ (e2 - e)).
  { destruct (Z.compare_spec (Zpos m1 * 2 ^ (e1 - e)) (Zpos m2 * 2 ^ (e2 - e)));
      [lia|lia|by destruct Hcmp]. }
  assert (Hpow : 0 < 2 ^ (e + t)) by (apply Z.pow_pos_nonneg; lia).
  assert (Ht : 0 < 2 ^ t) by (apply Z.pow_pos_nonneg; lia).
  assert (H1 : Zpos m1 * 2 ^ (e1 + t) = Zpos m1 * 2 ^ (e1 - e) * 2 ^ (e + t)).
  { rewrite <- Z.mul_assoc, <- Z.pow_add_r by lia. do 2 f_equal. lia. }
  assert (H2 : Zpos m2 * 2 ^ (e2 + t) = Zpos m2 * 2 ^ (e2 - e) * 2 ^ (e + t)).
  { rewrite <- Z.mul_assoc, <- Z.pow_add_r by lia. do 2 f_equal. lia. }
  assert (Hm : Zpos m1 * 2 ^ (e1 + t) ≤ Zpos m2 * 2 ^ (e2 + t)).
  { rewrite H1, H2. apply Z.mul_le_mono_nonneg_r; lia. }
  pose proof (ratio_scale (Zpos m1) e1 t ltac:(lia) ltac:(lia)) as S1.
  pose proof (ratio_scale (Zpos m2) e2 t ltac:(lia) ltac:(lia)) as S2.
  pose proof (ratio_of_den_pos (Zpos m1) e1) as D1.
  pose proof (ratio_of_den_pos (Zpos m2) e2) as D2.
  revert S1 S2 D1 D2 Hm.
  generalize (ratio_of (Zpos m1) e1).1 (ratio_of (Zpos m1) e1).2
             (ratio_of (Zpos m2) e2).1 (ratio_of (Zpos m2) e2).2
             (Zpos m1 * 2 ^ (e1 + t)) (Zpos m2 * 2 ^ (e2 + t)) (2 ^ t) Ht.
  clear. intros n1 d1 n2 d2 a1 a2 T HT S1 S2 D1 D2 Hm.
  apply Z.mul_le_mono_pos_r with (p := T); [exact HT|].
  replace (n1 * d2 * T) with (n1 * T * d2) by ring.
  replace (n2 * d1 * T) with (n2 * T * d1) by ring.
  rewrite S1, S2.
  replace (a1 * d1 * d2) with (a1 * (d1 * d2)) by ring.
  replace (a2 * d2 * d1) with (a2 * (d1 * d2)) by ring.
  apply Z.mul_le_mono_nonneg_r; [|exact Hm].
  apply Z.mul_nonneg_nonneg; lia.
Qed.

Lemma round_half_even_bounds num den bound :
  0 ≤ num → 0 < den → num ≤ bound * den →
  0 ≤ round_half_even num den ≤ bound.
Proof.
  intros Hnum Hden Hle. unfold round_half_even.
  pose proof (Z.div_mod num den ltac:(lia)) as Hdm.
  pose proof (Z.mod_pos_bound num den Hden) as Hr.
  assert (Hq : 0 ≤ num / den) by (apply Z.div_pos; lia).
  assert (Hqb : num / den ≤ bound).
  { apply Z.div_le_upper_bound; [exact Hden|]. lia. }
  assert (Hstep : den ≤ 2 * (num mod den) → num / den + 1 ≤ bound).
  { intros H2. destruct (Z.eq_dec (num / den) bound) as [Heq|Hne]; [|lia].
    rewrite Heq in Hdm. nia. }
  destruct (Z.compare_spec (2 * (num mod den)) den); [|lia|lia].
  destruct (Z.even (num / den)); lia.
Qed.

Lemma float_of_decimal_tenth neg k :
  float_of_decimal neg k (-1) = float_of_ratio neg k 10.
Proof. reflexivity. Qed.

Lemma py_round1_tenth x :
  float_le (float_lit "-5.0") x = true →
  float_le x (float_lit "100.0") = true →
  tenth_value (py_round1 x).
Proof.
  assert (Ehi : float_lit "100.0" = S754_finite false 7036874417766400 (-46))
    by (vm_compute; reflexivity).
  assert (Elo : float_lit "-5.0" = S754_finite true 5629499534213120 (-50))
    by (vm_compute; reflexivity).
  rewrite Ehi, Elo. clear Ehi Elo.
  destruct x as [s|s| |s m e]; cbn [py_round1].
  - intros _ _. exists s, 0. split; [|reflexivity].
    split; [lia|destruct s; lia].
  - destruct s; [intros H; vm_compute in H|intros _ H; vm_compute in H];
      discriminate.
  - intros H. vm_compute in H. discriminate.
  - intros Hlo Hhi. rewrite ratio_of_mul.
    pose proof (ratio_of_den_pos (Zpos m) e) as Hd.
    pose proof (ratio_of_num_nonneg (Zpos m) e ltac:(lia)) as Hn.
    exists s, (round_half_even ((ratio_of (Zpos m) e).1 * 10) (ratio_of (Zpos m) e).2).
    split; [|by rewrite float_of_decimal_tenth].
    apply round_half_even_bounds; [lia|exact Hd|].
    destruct s.
    + unfold float_le, float_compare in Hlo.
      assert (Hc : magnitude_compare m e 5629499534213120 (-50) ≠ Gt).
      { intros HG. rewrite HG in Hlo. discriminate. }
      apply magnitude_le_ratio in Hc.
      change (ratio_of (Zpos 5629499534213120) (-50))
        with (5629499534213120, 2 ^ 50) in Hc. simpl fst in Hc. simpl snd in Hc.
      change (Z.pos 5629499534213120) with (5 * 2 ^ 50) in Hc. lia.
    + unfold float_le, float_compare in Hhi.
      assert (Hc : magnitude_compare m e 7036874417766400 (-46) ≠ Gt).
      { intros HG. rewrite HG in Hhi. discriminate. }
      apply magnitude_le_ratio in Hc.
      change (ratio_of (Zpos 7036874417766400) (-46))
        with (7036874417766400, 2 ^ 46) in Hc. simpl fst in Hc. simpl snd in Hc.
      change (Z.pos 7036874417766400) with (100 * 2 ^ 46) in Hc. lia.
Qed.

(** ** Reading the serialized lines back *)

Lemma upto_elem n k : 0 ≤ k < n → In k (upto n).
Proof.
  intros Hk. unfold upto. apply in_map_iff. exists (Z.to_nat k).
  split; [lia|]. apply in_seq. lia.
Qed.

Lemma value_check_ok neg k : tenth_in_range neg k → value_check neg k = true.
Proof.
  intros [H0 Hk]. destruct neg.
  - assert (Hall : forallb (value_check true) (upto 51) = true)
      by (vm_compute; reflexivity).
    rewrite forallb_forall in Hall. apply Hall, upto_elem. lia.
  - assert (Hall : forallb (value_check false) (upto 1001) = true)
      by (vm_compute; reflexivity).
    rewrite forallb_forall in Hall. apply Hall, upto_elem. lia.
Qed.

Lemma year_check_ok y : 0 ≤ y ≤ 9999 → year_check y = true.
Proof.
  intros Hy.
  assert (Hall : forallb year_check (upto 10000) = true)
    by (vm_compute; reflexivity).
  rewrite forallb_forall in Hall. apply Hall, upto_elem. lia.
Qed.

Lemma float_eqb_eq x y : float_eqb x y = true → x = y.
Proof.
  destruct x as [a|a| |a m e], y as [b|b| |b m' e']; simpl;
    try discriminate; try reflexivity.
  - intros H. apply Bool.eqb_prop in H. by subst.
  - intros H. apply Bool.eqb_prop in H. by subst.
  - rewrite !andb_true_iff. intros [[Hs Hm] He].
    apply Bool.eqb_prop in Hs. apply Pos.eqb_eq in Hm. apply Z.eqb_eq in He.
    by subst.
Qed.

Lemma break_at_app c s rest :
  lacks c s = true → break_at c (s ++ c :: rest) = (s, rest).
Proof.
  unfold lacks. induction s as [|x s IH]; simpl.
  - intros _. by rewrite Ascii.eqb_refl.
  - rewrite andb_true_iff. intros [Hx Hs].
    apply negb_true_iff in Hx. rewrite Hx, IH by exact Hs. reflexivity.
Qed.

Lemma reparse_data_line y neg k comment :
  year_check y = true → value_check neg k = true →
  reparse_line (str "  " ++ str_of_int y ++ str ": "
                  ++ pad_left 5 (one_decimal neg k) ++ ","%char :: comment)
  = Some (y, float_of_decimal neg k (-1)).
Proof.
  unfold year_check, value_check. rewrite !andb_true_iff.
  intros [Hcolon Hint] [[[_ _] Hcomma] Hfloat].
  destruct (py_int (str "  " ++ str_of_int y)) as [z|] eqn:Ez; [|discriminate].
  apply Z.eqb_eq in Hint. subst z.
  destruct (py_float (SPACE :: pad_left 5 (one_decimal neg k))) as [x|] eqn:Ex;
    [|discriminate].
  apply float_eqb_eq in Hfloat. subst x.
  unfold reparse_line.
  replace (str "  " ++ str_of_int y ++ str ": "
             ++ pad_left 5 (one_decimal neg k) ++ ","%char :: comment)
    with ((str "  " ++ str_of_int y) ++ ":"%char
            :: (SPACE :: pad_left 5 (one_decimal neg k)) ++ ","%char :: comment)
    by (by rewrite <- !app_assoc).
  rewrite (break_at_app _ _ _ Hcolon), (break_at_app _ _ _ Hcomma), Ez, Ex.
  reflexivity.
Qed.

Lemma value_check_width neg k :
  value_check neg k = true →
  float_repr (float_of_decimal neg k (-1)) = one_decimal neg k
  ∧ length (pad_left 5 (one_decimal neg k)) = 5%nat.
Proof.
  unfold value_check. rewrite !andb_true_iff.
  intros [[[Hrepr Hlen] _] _]. split.
  - by apply text_eqb_eq.
  - by apply Nat.eqb_eq.
Qed.

(** *** The sorted years *)

Lemma sorted_le_nodup_lt (l : list Z) :
  StronglySorted Z.le l → NoDup l → StronglySorted Z.lt l.
Proof.
  induction 1 as [|x l Hsorted IH Hall]; intros Hnd; [constructor|].
  apply NoDup_cons in Hnd as [Hx Hnd]. constructor; [auto|].
  rewrite Forall_forall in Hall |- *. intros z Hz.
  specialize (Hall z Hz). assert (z ≠ x) by (intros ->; contradiction). lia.
Qed.

Lemma sorted_keys_sorted (d : dict) : StronglySorted Z.lt (sorted_keys d).
Proof.
  apply sorted_le_nodup_lt.
  - unfold sorted_keys. apply StronglySorted_merge_sort; apply _.
  - unfold sorted_keys. rewrite merge_sort_Permutation.
    apply NoDup_fst_map_to_list.
Qed.

Lemma sorted_keys_length (d : dict) : length (sorted_keys d) = size d.
Proof.
  unfold sorted_keys, keys.
  rewrite (Permutation_length (merge_sort_Permutation _ _)).
  rewrite length_fmap. apply length_map_to_list.
Qed.

(** *** The entries of a block *)

Lemma fixed_lookup y v :
  FIXED_HISTORICAL !! y = Some v →
  1990 ≤ y ≤ 1992 ∧ tenth_value v.
Proof.
  unfold FIXED_HISTORICAL.
  rewrite !lookup_insert. repeat case_decide; subst;
    rewrite ?lookup_empty; intros [= <-]; (split; [lia|]).
  - exists false, 111. split; [split; lia|vm_compute; reflexivity].
  - exists false, 566. split; [split; lia|vm_compute; reflexivity].
  - exists false, 97. split; [split; lia|vm_compute; reflexivity].
Qed.

Lemma combined_entry current_year raw api y v :
  parse_response current_year raw = Some api →
  combine api !! y = Some v →
  1990 ≤ y ≤ Z.max 1992 current_year ∧ tenth_value v.
Proof.
  intros Hrun. rewrite combine_lookup.
  destruct (api !! y) as [u|] eqn:Hu.
  - intros [= <-].
    destruct (parse_response_entries _ _ _ Hrun y u Hu) as (x & Hr & ->).
    pose proof (in_range_year _ _ _ Hr).
    unfold in_range in Hr. rewrite !andb_true_iff in Hr.
    destruct Hr as [[_ Hlo] Hhi]. split; [lia|].
    by apply py_round1_tenth.
  - intros Hf. apply fixed_lookup in Hf as [Hy Hv]. split; [lia|exact Hv].
Qed.

Section Lines.
Variable combined : dict.
Variable today : date.
Variable max_year : option Z.
Hypothesis entries :
  ∀ y v, combined !! y = Some v → 0 ≤ y ≤ 9999 ∧ tenth_value v.

Lemma format_line_data_line y v comment :
  combined !! y = Some v →
  data_line (format_line y v comment) (y, v)
  ∧ reparse_line (format_line y v comment) = Some (y, v).
Proof.
  intros Hy. destruct (entries y v Hy) as (Hyear & neg & k & Hk & ->).
  pose proof (value_check_ok _ _ Hk) as Hcheck.
  destruct (value_check_width _ _ Hcheck) as [Hrepr Hwidth].
  unfold format_line. rewrite Hrepr. split.
  - exists neg, k, comment. auto.
  - apply reparse_data_line; [by apply year_check_ok|exact Hcheck].
Qed.

Lemma lines_items ys :
  (∀ y, y ∈ ys → is_Some (combined !! y)) →
  ∃ items : list (Z * float),
    items.*1 = ys
    ∧ (∀ y v, (y, v) ∈ items → combined !! y = Some v)
    ∧ Forall2 data_line (omap (line_of combined today max_year) ys) items
    ∧ omap reparse_line (omap (line_of combined today max_year) ys) = items.
Proof.
  induction ys as [|y ys IH]; intros Hys.
  - exists []. repeat split; [|constructor]. intros y v H. inversion H.
  - destruct (Hys y) as [v Hv]; [by left|].
    destruct IH as (items & Hfst & Hin & Hlines & Hback).
    { intros z Hz. apply Hys. by right. }
    destruct (format_line_data_line y v (comment_of today max_year y) Hv)
      as [Hline Hre].
    exists ((y, v) :: items).
    assert (Hcons : omap (line_of combined today max_year) (y :: ys)
                    = format_line y v (comment_of today max_year y)
                        :: omap (line_of combined today max_year) ys).
    { cbn [omap list_omap]. unfold line_of at 1. rewrite Hv. reflexivity. }
    rewrite Hcons. split; [|split; [|split]].
    + by rewrite fmap_cons, Hfst.
    + intros z u Hz. inversion Hz; subst; auto.
    + by constructor.
    + cbn [omap list_omap]. rewrite Hre.
      fold (omap reparse_line (omap (line_of combined today max_year) ys)).
      by rewrite Hback.
Qed.
End Lines.

(** The lines of the years, read back. *)
Lemma block_lines_round_trip current_year raw api today :
  current_year ≤ 9999 →
  parse_response current_year raw = Some api →
  let combined := combine api in
  let lines := block_lines api today in
  ∃ items : list (Z * float),
    length lines = size combined
    ∧ StronglySorted Z.lt items.*1
    ∧ (∀ y v, (y, v) ∈ items ↔ combined !! y = Some v)
    ∧ Forall2 data_line lines items
    ∧ omap reparse_line lines = items
    ∧ list_to_map (omap reparse_line lines) = combined.
Proof.
  intros Hcy Hrun combined lines. subst lines. unfold block_lines.
  cbv zeta. fold combined.
  assert (Hentries : ∀ y v, combined !! y = Some v → 0 ≤ y ≤ 9999 ∧ tenth_value v).
  { intros y v Hy.
    destruct (combined_entry _ _ _ _ _ Hrun Hy) as [Hyear Hv]. split; [lia|exact Hv]. }
  destruct (lines_items combined today (py_max (keys combined)) Hentries
              (sorted_keys combined))
    as (items & Hfst & Hin & Hlines & Hback).
  { intros y. apply sorted_keys_elem. }
  assert (Hsorted : StronglySorted Z.lt items.*1)
    by (rewrite Hfst; apply sorted_keys_sorted).
  assert (Hiff : ∀ y v, (y, v) ∈ items ↔ combined !! y = Some v).
  { intros y v. split; [apply Hin|]. intros Hy.
    assert (Hkey : y ∈ items.*1)
      by (rewrite Hfst; apply sorted_keys_elem; eauto).
    apply list_elem_of_fmap in Hkey as ([y' v'] & Heq & Hyv).
    simpl in Heq. subst y'. pose proof (Hin _ _ Hyv) as Hy'.
    by replace v with v' by congruence. }
  exists items. split; [|split; [exact Hsorted|split; [exact Hiff|]]].
  - rewrite (Forall2_length _ _ _ Hlines), <- (length_fmap fst), Hfst.
    apply sorted_keys_length.
  - split; [exact Hlines|]. split; [exact Hback|].
    rewrite Hback. apply map_eq. intros y.
    assert (Hnd : NoDup items.*1).
    { clear -Hsorted. induction Hsorted as [|x l _ IH Hall]; constructor; auto.
      intros Hx. rewrite Forall_forall in Hall. specialize (Hall x Hx). lia. }
    destruct (combined !! y) as [v|] eqn:Hy.
    + apply elem_of_list_to_map_1; [exact Hnd|]. by apply Hiff.
    + apply not_elem_of_list_to_map_1. intros Hkey.
      apply list_elem_of_fmap in Hkey as ([y' v'] & Heq & Hyv).
      simpl in Heq. subst y'. apply Hiff in Hyv. congruence.
Qed.

(** C10: the text [build_raw_block] returns for a parsed mapping is an
    opening line, one data line per year of the merged mapping and a
    closing line; the data lines stand in ascending order of the years;
    each is the year, a colon, the value with one fractional digit
    right-aligned in five characters, and a comma; and reading year and
    value back from the data lines of the text gives the merged
    mapping. *)
Theorem serialized_lines_round_trip current_year raw api today :
  current_year ≤ 9999 →
  parse_response current_year raw = Some api →
  let combined := combine api in
  let block := build_raw_block api today in
  let lines := data_lines block in
  ∃ items : list (Z * float),
    split_lines block = str "const RAW = {" :: lines ++ [str "};"]
    ∧ length lines = size combined
    ∧ StronglySorted Z.lt items.*1
    ∧ (∀ y v, (y, v) ∈ items ↔ combined !! y = Some v)
    ∧ Forall2 data_line lines items
    ∧ omap reparse_line lines = items
    ∧ list_to_map (omap reparse_line lines) = combined.
Proof.
  intros Hcy Hrun combined block lines. subst lines block.
  rewrite data_lines_block.
  destruct (block_lines_round_trip _ _ _ today Hcy Hrun) as (items & Hitems).
  exists items. split; [apply split_lines_block|exact Hitems].
Qed.

Lemma serialized_lines_round_trip_example :
  ∃ items : list (Z * float),
    split_lines (build_raw_block sample_data sample_today)
    = str "const RAW = {"
        :: data_lines (build_raw_block sample_data sample_today) ++ [str "};"]
    ∧ length (data_lines (build_raw_block sample_data sample_today))
      = size (combine sample_data)
    ∧ StronglySorted Z.lt items.*1
    ∧ (∀ y v, (y, v) ∈ items ↔ combine sample_data !! y = Some v)
    ∧ Forall2 data_line (data_lines (build_raw_block sample_data sample_today))
        items
    ∧ omap reparse_line (data_lines (build_raw_block sample_data sample_today))
      = items
    ∧ list_to_map
        (omap reparse_line (data_lines (build_raw_block sample_data sample_today)))
      = combine sample_data.
Proof.
  apply (serialized_lines_round_trip 2026 sample_raw sample_data sample_today).
  - lia.
  - vm_compute. reflexivity.
Defined.

(** ** A parsed pair is stored *)

Lemma round_check_ok neg k : tenth_in_range neg k → round_check neg k = true.
Proof.
  intros [H0 Hk]. destruct neg.
  - assert (Hall : forallb (round_check true) (upto 51) = true)
      by (vm_compute; reflexivity).
    rewrite forallb_forall in Hall. apply Hall, upto_elem. lia.
  - assert (Hall : forallb (round_check false) (upto 1001) = true)
      by (vm_compute; reflexivity).
    rewrite forallb_forall in Hall. apply Hall, upto_elem. lia.
Qed.

(** Rounding a tenth in range to one decimal gives it back. *)
Lemma py_round1_of_tenth v : tenth_value v → py_round1 v = v.
Proof.
  intros (neg & k & Hk & ->). apply float_eqb_eq. by apply round_check_ok.
Qed.




(** * Further properties of the script *)

(** ** Runs without data *)

(** X1: when the download fails, or the response is read without
    [csv.Error] and holds no accepted pair, the run ends with exit status
    0, never writes index.html and leaves its content alone; it reports
    the failure on standard error (one line for a failed download; a
    warning and the first 800 characters of the response when nothing was
    parsed). *)
Theorem no_data_no_write e w :
  (∀ msg, env_response e = Failed msg →
     main e w = Some (0, eprint (str "  CHYBA pri stahovani: " ++ msg) w))
  ∧ (∀ raw data,
       env_response e = Body raw →
       parse_response (env_current_year e) raw = Some data →
       dict_nonempty data = false →
       ∃ w', main e w = Some (0, w')
             ∧ html_file w' = html_file w
             ∧ writes w' = writes w
             ∧ stderr w' = stderr w
                 ++ [str "  VAROVANI: Z API nebyla nactena zadna data.";
                     str "  Cela odpoved:" ++ LF :: firstn 800 raw]).
Proof.
  split.
  - intros msg Hresp. unfold main, fetch_data. rewrite Hresp. reflexivity.
  - intros raw data Hresp Hparse Hempty. unfold main, fetch_data.
    rewrite Hresp, Hparse, Hempty, Hempty. eexists. split; [reflexivity|].
    cbn [html_file writes stderr eprint]. rewrite <- app_assoc. auto.
Qed.

Lemma no_data_no_write_example :
  ∃ w', main {| env_response := Body (str "year,value");
                env_current_year := 2026;
                env_today := sample_today |} sample_world = Some (0, w')
        ∧ html_file w' = html_file sample_world
        ∧ writes w' = writes sample_world
        ∧ stderr w' = stderr sample_world
            ++ [str "  VAROVANI: Z API nebyla nactena zadna data.";
                str "  Cela odpoved:" ++ LF :: firstn 800 (str "year,value")].
Proof.
  apply (proj2 (no_data_no_write
                  {| env_response := Body (str "year,value");
                     env_current_year := 2026;
                     env_today := sample_today |} sample_world)
           (str "year,value") ∅).
  - reflexivity.
  - vm_compute. reflexivity.
  - reflexivity.
Defined.

(** ** What a patch does to the document *)

Lemma re_search_leftmost html : ∀ before m after,
  re_search pattern html = Some (before, m, after) →
  ∀ b1 b2, before = b1 ++ b2 → b2 ≠ [] →
           match_here pattern (b2 ++ m ++ after) = None.
Proof.
  induction html as [|c html IH]; intros before m after;
    rewrite re_search_unfold.
  - destruct (match_here pattern []) as [rest|] eqn:Hm; [|discriminate].
    apply match_pattern_iff in Hm as (body & _ & _ & [=]).
  - destruct (match_here pattern (c :: html)) as [rest|] eqn:Hm.
    + intros [= <- _ _] b1 b2 Hb Hne. by destruct b1, b2.
    + destruct (re_search pattern html) as [[[b' m'] a']|] eqn:Hs;
        [|discriminate].
      intros [= <- <- <-] b1 b2 Hb Hne.
      pose proof (re_search_some _ _ _ _ Hs) as [Hhtml _].
      destruct b1 as [|x b1].
      * simpl in Hb. subst b2. simpl. by rewrite <- Hhtml.
      * injection Hb as <- Hb. by apply (IH _ _ _ eq_refl b1 b2).
Qed.

(** No marker block starts before the one [re_search] returns. *)
Lemma re_search_first html before m after b1 m' rest :
  re_search pattern html = Some (before, m, after) →
  marker_block m' → html = b1 ++ m' ++ rest →
  (length before ≤ length b1)%nat.
Proof.
  intros Hs Hb' Hhtml.
  pose proof (re_search_some _ _ _ _ Hs) as [Heq _].
  rewrite Heq in Hhtml.
  apply app_eq_inv in Hhtml as [(k & Hbefore & Hk)|(k & -> & Hk)].
  - destruct k as [|x k]; [rewrite Hbefore, app_nil_r; lia|].
    pose proof (re_search_leftmost _ _ _ _ Hs b1 (x :: k) Hbefore
                  ltac:(discriminate)) as Hnone.
    rewrite <- Hk, (match_marker_block _ _ Hb') in Hnone. discriminate.
  - rewrite length_app. lia.
Qed.


(** X3: on a document with the marker pattern, [update_html] replaces
    the first marker block and nothing else: the text before and after it
    is kept, no marker block starts earlier, and the file is written
    exactly when the new block differs from the old one; when it differs
    and the file cannot be written, [open] raises and nothing changes. *)
Theorem update_html_replaces_first_block block w html :
  html_file w = Some html →
  has_marker html →
  has_backslash block = false →
  ∃ before m after,
    html = before ++ m ++ after
    ∧ marker_block m
    ∧ (∀ b1 m' rest, marker_block m' → html = b1 ++ m' ++ rest →
                     (length before ≤ length b1)%nat)
    ∧ (m = block → update_html block w = Some (Return false, w))
    ∧ (m ≠ block → html_writable w = true →
       update_html block w
       = Some (Return true,
               {| html_file := Some (before ++ block ++ after);
                  stderr := stderr w;
                  writes := S (writes w);
                  html_writable := true |}))
    ∧ (m ≠ block → html_writable w = false →
       update_html block w = Some (Raise OSError, w)).
Proof.
  intros Hfile Hm Hb.
  destruct (has_marker_search _ Hm) as (before & m & after & Hs).
  pose proof (re_search_some _ _ _ _ Hs) as [Hhtml Hblock].
  exists before, m, after. split; [exact Hhtml|]. split; [exact Hblock|].
  split; [intros b1 m' rest; by apply (re_search_first _ _ m after)|].
  rewrite (update_html_found _ _ _ _ _ _ Hfile Hs Hb).
  assert (Hne : m ≠ block → text_eqb (before ++ block ++ after) html = false).
  { intros Hne. apply text_eqb_neq. rewrite Hhtml. intros Heq.
    apply app_inv_head, app_inv_tail in Heq. congruence. }
  split; [|split].
  - intros <-. by rewrite (proj2 (text_eqb_eq _ _) (eq_sym Hhtml)).
  - intros Hd Hw. rewrite (Hne Hd), Hw. unfold written. by rewrite Hw.
  - intros Hd Hw. by rewrite (Hne Hd), Hw.
Qed.

Lemma update_html_replaces_first_block_example :
  ∃ before m after,
    sample_html = before ++ m ++ after
    ∧ marker_block m
    ∧ (∀ b1 m' rest, marker_block m' → sample_html = b1 ++ m' ++ rest →
                     (length before ≤ length b1)%nat)
    ∧ (m = build_raw_block sample_data sample_today →
       update_html (build_raw_block sample_data sample_today) sample_world
       = Some (Return false, sample_world))
    ∧ (m ≠ build_raw_block sample_data sample_today →
       html_writable sample_world = true →
       update_html (build_raw_block sample_data sample_today) sample_world
       = Some (Return true,
               {| html_file :=
                    Some (before ++ build_raw_block sample_data sample_today
                            ++ after);
                  stderr := stderr sample_world;
                  writes := S (writes sample_world);
                  html_writable := true |}))
    ∧ (m ≠ build_raw_block sample_data sample_today →
       html_writable sample_world = false →
       update_html (build_raw_block sample_data sample_today) sample_world
       = Some (Raise OSError, sample_world)).
Proof.
  apply (update_html_replaces_first_block
           (build_raw_block sample_data sample_today) sample_world sample_html).
  - reflexivity.
  - exact sample_html_has_marker.
  - vm_compute. reflexivity.
Defined.





(** ** The exit status *)




(** ** What the parser returns *)

Lemma bounds_check_ok neg k : tenth_in_range neg k → bounds_check neg k = true.
Proof.
  intros [H0 Hk]. destruct neg.
  - assert (Hall : forallb (bounds_check true) (upto 51) = true)
      by (vm_compute; reflexivity).
    rewrite forallb_forall in Hall. apply Hall, upto_elem. lia.
  - assert (Hall : forallb (bounds_check false) (upto 1001) = true)
      by (vm_compute; reflexivity).
    rewrite forallb_forall in Hall. apply Hall, upto_elem. lia.
Qed.

(** X6: every entry of a parsed mapping has a year in
    [1993, current_year] and a value with one fractional digit that still
    lies between -5.0 and 100.0 after the rounding, and that rounding
    again would not change. *)
Theorem parsed_values_in_range current_year raw api y v :
  parse_response current_year raw = Some api →
  api !! y = Some v →
  1993 ≤ y ≤ current_year
  ∧ tenth_value v
  ∧ float_le (float_lit "-5.0") v = true
  ∧ float_le v (float_lit "100.0") = true
  ∧ py_round1 v = v.
Proof.
  intros Hrun Hy.
  destruct (parse_response_entries _ _ _ Hrun y v Hy) as (x & Hr & ->).
  pose proof (in_range_year _ _ _ Hr) as Hyear.
  unfold in_range in Hr. rewrite !andb_true_iff in Hr.
  destruct Hr as [[_ Hlo] Hhi].
  pose proof (py_round1_tenth x Hlo Hhi) as Htenth.
  split; [exact Hyear|]. split; [exact Htenth|].
  pose proof (py_round1_of_tenth _ Htenth) as Hfix.
  destruct Htenth as (neg & k & Hk & Hv). rewrite Hv in *.
  pose proof (bounds_check_ok _ _ Hk) as Hb.
  unfold bounds_check in Hb. apply andb_true_iff in Hb as [H1 H2]. auto.
Qed.

Lemma parsed_values_in_range_example :
  1993 ≤ 2020 ≤ 2026
  ∧ tenth_value (float_lit "2.0")
  ∧ float_le (float_lit "-5.0") (float_lit "2.0") = true
  ∧ float_le (float_lit "2.0") (float_lit "100.0") = true
  ∧ py_round1 (float_lit "2.0") = float_lit "2.0".
Proof.
  apply (parsed_values_in_range 2026 two_decimals_raw
           (<[2020 := float_lit "2.0"]> ∅) 2020 (float_lit "2.0")).
  - vm_compute. reflexivity.
  - apply lookup_insert_eq.
Defined.

Lemma try_separators_origin current_year raw seps : ∀ data,
  try_separators current_year raw seps ∅ = Some data →
  data ≠ ∅ →
  ∃ earlier sep later rows,
    seps = earlier ++ sep :: later
    ∧ try_separators current_year raw earlier ∅ = Some ∅
    ∧ csv_rows sep raw = Some rows
    ∧ (2 ≤ length rows)%nat
    ∧ data = scan_rows current_year ∅ (tl rows).
Proof.
  induction seps as [|sep seps IH]; intros data Hrun Hne.
  - simpl in Hrun. congruence.
  - cbn [try_separators] in Hrun.
    destruct (csv_rows sep raw) as [rows|] eqn:Hrows; [|discriminate].
    destruct (length rows <? 2)%nat eqn:Hlen.
    + destruct (IH data Hrun Hne)
        as (earlier & s & later & rs & -> & He & Hs & Hl & Hd).
      exists (sep :: earlier), s, later, rs. repeat split; auto.
      cbn [try_separators]. by rewrite Hrows, Hlen.
    + destruct (dict_nonempty (scan_rows current_year ∅ (tl rows))) eqn:Hd.
      * injection Hrun as <-. exists [], sep, seps, rows.
        apply Nat.ltb_ge in Hlen. repeat split; auto.
      * apply dict_nonempty_false in Hd. rewrite Hd in Hrun.
        destruct (IH data Hrun Hne)
          as (earlier & s & later & rs & -> & He & Hs & Hl & Hdata).
        exists (sep :: earlier), s, later, rs. repeat split; auto.
        cbn [try_separators]. rewrite Hrows, Hlen, Hd. by simpl.
Qed.

(** X7: a mapping with entries comes from one separator alone: it is
    what the rows after the first row give under that separator, and every
    separator tried before stored nothing.  Pairs read under different
    separators are never mixed. *)
Theorem parse_uses_one_separator current_year raw data :
  parse_response current_year raw = Some data →
  data ≠ ∅ →
  ∃ earlier sep later rows,
    SEPARATORS = earlier ++ sep :: later
    ∧ try_separators current_year raw earlier ∅ = Some ∅
    ∧ csv_rows sep raw = Some rows
    ∧ (2 ≤ length rows)%nat
    ∧ data = scan_rows current_year ∅ (tl rows).
Proof.
  intros Hrun Hne. unfold parse_response in Hrun.
  exact (try_separators_origin _ _ _ _ Hrun Hne).
Qed.

Lemma parse_uses_one_separator_example :
  ∃ earlier sep later rows,
    SEPARATORS = earlier ++ sep :: later
    ∧ try_separators 2026 (csv_text ";" semicolon_rows) earlier ∅ = Some ∅
    ∧ csv_rows sep (csv_text ";" semicolon_rows) = Some rows
    ∧ (2 ≤ length rows)%nat
    ∧ <[2023 := float_lit "10.7"]> (∅ : dict) = scan_rows 2026 ∅ (tl rows).
Proof.
  apply (parse_uses_one_separator 2026 (csv_text ";" semicolon_rows)
           (<[2023 := float_lit "10.7"]> ∅)).
  - vm_compute. reflexivity.
  - intros H. apply (f_equal (λ d : dict, d !! 2023)) in H.
    rewrite lookup_insert_eq, lookup_empty in H. discriminate.
Defined.

Section Soundness.
Variable current_year : Z.
Variables (y : Z) (v : float).

Lemma scan_pair_sound d a b :
  scan_pair current_year d a b !! y = Some v →
  d !! y = Some v
  ∨ ∃ x, py_int a = Some y ∧ py_float b = Some x
         ∧ in_range current_year y x = true ∧ v = py_round1 x.
Proof.
  unfold scan_pair.
  destruct (py_int a) as [year|]; [|auto].
  destruct (py_float b) as [x|]; [|auto].
  destruct (in_range current_year year x) eqn:Hr; [|auto].
  rewrite lookup_insert. case_decide; [|auto].
  subst year. intros [= <-]. right. exists x. auto.
Qed.

Lemma scan_row_sound row : ∀ d,
  scan_row current_year d row !! y = Some v →
  d !! y = Some v
  ∨ ∃ a b x, adjacent a b row
             ∧ py_int (clean_cell a) = Some y
             ∧ py_float (clean_cell b) = Some x
             ∧ in_range current_year y x = true ∧ v = py_round1 x.
Proof.
  unfold scan_row.
  induction row as [|a rest IH]; intros d; [auto|].
  destruct rest as [|b rest']; [auto|].
  cbn [map]. rewrite scan_cells_cons. intros H.
  apply (IH (scan_pair current_year d (clean_cell a) (clean_cell b))) in H
    as [H|(a' & b' & x & (pre & post & Hrow) & Hrest)].
  - apply scan_pair_sound in H as [H|(x & Ha & Hb & Hr & Hv)]; [auto|].
    right. exists a, b, x. split; [by exists [], rest'|auto].
  - right. exists a', b', x. split; [|exact Hrest].
    exists (a :: pre), post. by rewrite Hrow.
Qed.

Lemma scan_rows_sound rows : ∀ d,
  scan_rows current_year d rows !! y = Some v →
  d !! y = Some v ∨ accepted_in current_year rows y v.
Proof.
  unfold scan_rows.
  induction rows as [|row rows IH]; intros d; [auto|].
  cbn [fold_left]. intros H. apply IH in H as [H|H].
  - apply scan_row_sound in H as [H|(a & b & x & Hadj & Hrest)]; [auto|].
    right. exists row, a, b, x. split; [by left|auto].
  - right. destruct H as (r & a & b & x & Hin & Hrest).
    exists r, a, b, x. split; [by right|auto].
Qed.
End Soundness.

(** X8: the parser invents nothing: every entry of a parsed mapping
    stands in the response as two adjacent cells of a row after the first
    row, the first reading as the year and the second as a value within
    range whose rounding is the stored value. *)
Theorem parsed_entry_has_source current_year raw data y v :
  parse_response current_year raw = Some data →
  data !! y = Some v →
  ∃ sep rows,
    In sep SEPARATORS
    ∧ csv_rows sep raw = Some rows
    ∧ accepted_in current_year (tl rows) y v.
Proof.
  intros Hrun Hy.
  assert (Hne : data ≠ ∅).
  { intros ->. by rewrite lookup_empty in Hy. }
  destruct (try_separators_origin _ _ _ _ Hrun Hne)
    as (earlier & sep & later & rows & Hseps & _ & Hrows & _ & ->).
  exists sep, rows. split; [|split; [exact Hrows|]].
  - rewrite Hseps. apply in_or_app. right. by left.
  - apply scan_rows_sound in Hy as [Hy|Hy]; [|exact Hy].
    by rewrite lookup_empty in Hy.
Qed.

Lemma parsed_entry_has_source_example :
  ∃ sep rows,
    In sep SEPARATORS
    ∧ csv_rows sep repeated_year_raw = Some rows
    ∧ accepted_in 2026 (tl rows) 2020 (float_lit "2.0").
Proof.
  apply (parsed_entry_has_source 2026 repeated_year_raw
           (<[2020 := float_lit "2.0"]> ∅)).
  - vm_compute. reflexivity.
  - apply lookup_insert_eq.
Defined.

(** ** A response of one line *)

Lemma io_lines_single raw :
  Forall (λ c, c ≠ LF) raw →
  io_lines raw = match raw with [] => [] | _ :: _ => [raw] end.
Proof.
  induction 1 as [|c raw Hc Hraw IH]; [reflexivity|].
  simpl. destruct (Ascii.eqb_spec c LF) as [->|_]; [contradiction|].
  rewrite IH. by destruct raw.
Qed.

Lemma process_char_step sep r ch :
  is_newline ch = false →
  state r ≠ EAT_CRNL →
  Z.of_nat (length (field r)) < field_limit →
  ∃ r', parse_process_char sep r (Some ch) = Some r'
        ∧ state r' ≠ EAT_CRNL
        ∧ (length (field r') ≤ S (length (field r)))%nat.
Proof.
  intros Hnl Hst Hlen. destruct r as [st f fs]. cbn [state field] in *.
  assert (Hadd : ∀ st', parse_add_char {| state := st'; field := f; fields := fs |} ch
                        = Some {| state := st'; field := f ++ [ch]; fields := fs |})
    by (intros st'; by apply add_char_ok).
  unfold parse_process_char. cbn [state]. rewrite Hnl.
  destruct st; try contradiction;
    repeat match goal with
           | |- context [Ascii.eqb ?a ?b] => destruct (Ascii.eqb a b)
           end;
    rewrite ?Hadd; cbn [option_map];
    eexists; (split; [reflexivity|]);
    cbn [state field set_state parse_save_field];
    rewrite ?length_app; cbn [length]; (split; [discriminate|lia]).
Qed.

Lemma process_eol sep r : ∃ r', parse_process_char sep r None = Some r'.
Proof.
  destruct r as [st f fs]. unfold parse_process_char. cbn [state].
  destruct st; eauto.
Qed.

Lemma feed_line_total sep line : ∀ r,
  Forall (λ c, is_newline c = false) line →
  state r ≠ EAT_CRNL →
  Z.of_nat (length (field r) + length line) ≤ field_limit →
  ∃ r', feed_line sep r line = Some r'.
Proof.
  induction line as [|ch line IH]; intros r Hline Hst Hlen.
  - apply process_eol.
  - apply Forall_cons_1 in Hline as [Hch Hline]. cbn [feed_line].
    cbn [length] in Hlen.
    destruct (process_char_step sep r ch Hch Hst ltac:(lia))
      as (r' & -> & Hst' & Hlen').
    apply IH; [exact Hline|exact Hst'|lia].
Qed.

Lemma read_rows_one_line sep r line rows :
  read_rows sep r [line] = Some rows → (length rows ≤ 1)%nat.
Proof.
  cbn [read_rows]. destruct (feed_line sep r line) as [r'|]; [|discriminate].
  destruct (is_start_record (state r')).
  - cbn [field parse_reset is_in_quoted state option_map].
    intros [= <-]. simpl. lia.
  - destruct (field r'); [destruct (is_in_quoted (state r'))|];
      intros [= <-]; simpl; lia.
Qed.

Lemma try_separators_short current_year raw seps :
  (∀ sep, ∃ rows, csv_rows sep raw = Some rows ∧ (length rows ≤ 1)%nat) →
  try_separators current_year raw seps ∅ = Some ∅.
Proof.
  intros Hrows. induction seps as [|sep seps IH]; [reflexivity|].
  cbn [try_separators]. destruct (Hrows sep) as (rows & -> & Hlen).
  replace (length rows <? 2)%nat with true; [exact IH|].
  symmetry. apply Nat.ltb_lt. lia.
Qed.

(** X9: a response of a single line (no line break in it, and no longer
    than the reader's field limit) gives the empty mapping whatever its
    cells are: the first row is never read as data. *)
Theorem single_line_gives_nothing current_year raw :
  Forall (λ c, c ≠ LF ∧ c ≠ CR) raw →
  Z.of_nat (length raw) ≤ field_limit →
  parse_response current_year raw = Some ∅.
Proof.
  intros Hraw Hlen. apply try_separators_short. intros sep.
  unfold csv_rows. rewrite io_lines_single
    by (eapply Forall_impl; [exact Hraw|]; by intros c [? _]).
  destruct raw as [|c raw]; [exists []; split; [reflexivity|simpl; lia]|].
  destruct (feed_line_total sep (c :: raw) parse_reset) as [r' Hfeed].
  - eapply Forall_impl; [exact Hraw|]. intros ch [Hl Hc]. unfold is_newline.
    apply orb_false_intro; by apply Ascii.eqb_neq.
  - discriminate.
  - exact Hlen.
  - destruct (read_rows sep parse_reset [c :: raw]) as [rows|] eqn:Hrows.
    + exists rows. split; [reflexivity|]. by apply read_rows_one_line in Hrows.
    + cbn [read_rows] in Hrows. rewrite Hfeed in Hrows.
      destruct (is_start_record (state r')); [discriminate|].
      destruct (field r'); [destruct (is_in_quoted (state r'))|]; discriminate.
Qed.

Lemma single_line_gives_nothing_example :
  parse_response 2026 (str "2020,5.0") = Some ∅.
Proof.
  apply single_line_gives_nothing.
  - cbv [str list_ascii_of_string]. repeat constructor; discriminate.
  - vm_compute. discriminate.
Defined.

(** ** The layout of a block *)












(** ** Cleaning a cell *)

Section Strip.
Variable p : ascii → bool.

Lemma lstrip_by_app l s :
  Forall (λ c, p c = true) l → lstrip_by p (l ++ s) = lstrip_by p s.
Proof.
  induction 1 as [|c l Hc _ IH]; [reflexivity|]. simpl. by rewrite Hc.
Qed.

Lemma lstrip_by_stop s a : head s = Some a → p a = false → lstrip_by p s = s.
Proof.
  destruct s as [|c s]; [discriminate|]. simpl. intros [= ->] Ha.
  by rewrite Ha.
Qed.

Lemma head_app_Some (s t : text) a : head s = Some a → head (s ++ t) = Some a.
Proof. by destruct s. Qed.

Lemma last_app_Some_l (s t : text) b : last t = Some b → last (s ++ t) = Some b.
Proof. intros H. rewrite last_app, H. reflexivity. Qed.

Lemma head_rev_last (s : text) : head (rev s) = last s.
Proof.
  induction s as [|c s IH] using rev_ind; [reflexivity|].
  by rewrite rev_app_distr, last_snoc.
Qed.

Lemma rstrip_by_app l s :
  Forall (λ c, p c = true) l → rstrip_by p (s ++ l) = rstrip_by p s.
Proof.
  intros Hl. unfold rstrip_by. rewrite rev_app_distr, lstrip_by_app;
    [reflexivity|]. apply Forall_forall. intros c Hc.
  rewrite Forall_forall in Hl. apply Hl.
  apply list_elem_of_In. apply list_elem_of_In in Hc. by apply in_rev.
Qed.

Lemma rstrip_by_stop s b : last s = Some b → p b = false → rstrip_by p s = s.
Proof.
  intros Hs Hb. unfold rstrip_by.
  rewrite (lstrip_by_stop (rev s) b); [apply rev_involutive| |exact Hb].
  by rewrite head_rev_last.
Qed.

(** Stripping removes the characters around a text whose own first and
    last characters are kept. *)
Lemma strip_by_layer l1 l2 s :
  Forall (λ c, p c = true) l1 → Forall (λ c, p c = true) l2 →
  edges_fail p s → strip_by p (l1 ++ s ++ l2) = s.
Proof.
  intros H1 H2 (a & b & Ha & Hb & Hpa & Hpb). unfold strip_by.
  rewrite lstrip_by_app by exact H1.
  rewrite (lstrip_by_stop (s ++ l2) a); [|by apply head_app_Some|exact Hpa].
  rewrite rstrip_by_app by exact H2. by apply rstrip_by_stop with (b := b).
Qed.

Lemma edges_fail_wrap q (l1 l2 s : text) :
  p q = false →
  Forall (λ c, c = q) l1 → Forall (λ c, c = q) l2 →
  edges_fail p s → edges_fail p (l1 ++ s ++ l2).
Proof.
  intros Hq H1 H2 (a & b & Ha & Hb & Hpa & Hpb).
  assert (Hhead : ∃ a', head (l1 ++ s ++ l2) = Some a' ∧ p a' = false).
  { destruct H1 as [|c l1 -> _].
    - exists a. simpl. split; [by apply head_app_Some|exact Hpa].
    - exists q. auto. }
  assert (Hlast : ∃ b', last (l1 ++ s ++ l2) = Some b' ∧ p b' = false).
  { destruct l2 as [|c l2] using rev_ind.
    - exists b. rewrite app_nil_r. split; [by apply last_app_Some_l|exact Hpb].
    - apply Forall_app in H2 as [_ Hc]. apply Forall_cons_1 in Hc as [-> _].
      exists q. by rewrite !app_assoc, last_snoc. }
  destruct Hhead as (a' & Ha' & Hpa'), Hlast as (b' & Hb' & Hpb').
  by exists a', b'.
Qed.
End Strip.

(** X12: a cell is read through its padding: white space around it,
    then double quotes, then single quotes are dropped (in this nesting
    order), and decimal commas of the content become points. *)
Theorem clean_cell_drops_padding ws1 ws2 dq1 dq2 sq1 sq2 core :
  Forall (λ c, is_space c = true) ws1 → Forall (λ c, is_space c = true) ws2 →
  Forall (λ c, c = DQUOTE) dq1 → Forall (λ c, c = DQUOTE) dq2 →
  Forall (λ c, c = SQUOTE) sq1 → Forall (λ c, c = SQUOTE) sq2 →
  bare core →
  clean_cell (ws1 ++ (dq1 ++ (sq1 ++ core ++ sq2) ++ dq2) ++ ws2)
  = replace_char "," "." core.
Proof.
  intros Hw1 Hw2 Hd1 Hd2 Hs1 Hs2 (Hspace & Hdq & Hsq).
  unfold clean_cell, strip, strip_char. f_equal.
  rewrite (strip_by_layer is_space ws1 ws2); [|exact Hw1|exact Hw2|].
  - rewrite (strip_by_layer (Ascii.eqb DQUOTE) dq1 dq2).
    + apply strip_by_layer; [| |exact Hsq];
        (eapply Forall_impl; [eassumption|]); by intros c ->.
    + eapply Forall_impl; [exact Hd1|]. by intros c ->.
    + eapply Forall_impl; [exact Hd2|]. by intros c ->.
    + by apply edges_fail_wrap with (q := SQUOTE).
  - apply edges_fail_wrap with (q := DQUOTE); [reflexivity|exact Hd1|exact Hd2|].
    by apply edges_fail_wrap with (q := SQUOTE).
Qed.

Lemma clean_cell_drops_padding_example :
  clean_cell (str " '10,7' ") = str "10.7".
Proof.
  apply (clean_cell_drops_padding [SPACE] [SPACE] [] [] [SQUOTE] [SQUOTE]
           (str "10,7")); try (repeat constructor; fail).
  repeat split; exists "1"%char, "7"%char; repeat split; reflexivity.
Defined.

(** ** Tables of readings *)

Lemma plain_cellb_ok sep c : plain_cellb sep c = true → plain_cell sep c.
Proof.
  unfold plain_cellb, plain_cell. rewrite andb_true_iff, forallb_forall.
  intros [Hall Hlen]. split.
  - apply Forall_forall. intros ch Hch. apply list_elem_of_In in Hch.
    specialize (Hall ch Hch). rewrite !andb_true_iff, !negb_true_iff in Hall.
    destruct Hall as [[[H1 H2] H3] H4].
    repeat split; by apply Ascii.eqb_neq.
  - apply Z.leb_le in Hlen. unfold field_limit. lia.
Qed.

Lemma year_cell_check_ok y : 0 ≤ y ≤ 9999 → year_cell_check y = true.
Proof.
  intros Hy.
  assert (Hall : forallb year_cell_check (upto 10000) = true)
    by (vm_compute; reflexivity).
  rewrite forallb_forall in Hall. apply Hall, upto_elem. lia.
Qed.

Lemma point_cell_check_ok neg k :
  tenth_in_range neg k → point_cell_check neg k = true.
Proof.
  intros [H0 Hk]. destruct neg.
  - assert (Hall : forallb (point_cell_check true) (upto 51) = true)
      by (vm_compute; reflexivity).
    rewrite forallb_forall in Hall. apply Hall, upto_elem. lia.
  - assert (Hall : forallb (point_cell_check false) (upto 1001) = true)
      by (vm_compute; reflexivity).
    rewrite forallb_forall in Hall. apply Hall, upto_elem. lia.
Qed.

Lemma option_float_eqb_eq a b : option_float_eqb a b = true → a = b.
Proof.
  destruct a, b; simpl; try discriminate; [|reflexivity].
  intros H. f_equal. by apply float_eqb_eq.
Qed.

Lemma scan_row_pair current_year d a b :
  scan_row current_year d [a; b]
  = scan_pair current_year d (clean_cell a) (clean_cell b).
Proof. reflexivity. Qed.

(** A row of two cells that read as a year and a tenth within range. *)
Lemma scan_row_reading current_year d a b r :
  valid_reading current_year r →
  py_int (clean_cell a) = Some (reading_year r) →
  py_float (clean_cell b) = Some (reading_value r) →
  scan_row current_year d [a; b]
  = <[reading_year r := reading_value r]> d.
Proof.
  intros [Hy Hk] Ha Hb.
  rewrite scan_row_pair, (scan_pair_eq _ _ _ _ _ _ Ha Hb).
  pose proof (bounds_check_ok _ _ Hk) as Hbounds.
  apply andb_true_iff in Hbounds as [Hlo Hhi].
  rewrite in_range_intro; [|exact Hy|exact Hlo|exact Hhi].
  f_equal. apply py_round1_of_tenth.
  exists (reading_neg r), (reading_tenths r). auto.
Qed.

Lemma dict_of_pairs_nonempty pairs :
  pairs ≠ [] → dict_nonempty (dict_of_pairs pairs) = true.
Proof.
  intros Hne. destruct pairs as [|p pairs _] using rev_ind; [contradiction|].
  unfold dict_of_pairs. rewrite fold_left_app. cbn [fold_left].
  eapply dict_nonempty_lookup. apply lookup_insert_eq.
Qed.

Lemma point_row_plain current_year r :
  current_year ≤ 9999 → valid_reading current_year r →
  plain_row "," (point_row r)
  ∧ py_int (clean_cell (str_of_int (reading_year r))) = Some (reading_year r)
  ∧ py_float (clean_cell (one_decimal (reading_neg r) (reading_tenths r)))
    = Some (reading_value r).
Proof.
  intros Hcy [Hy Hk].
  pose proof (year_cell_check_ok (reading_year r) ltac:(lia)) as Hyc.
  pose proof (point_cell_check_ok _ _ Hk) as Hvc.
  unfold year_cell_check in Hyc. unfold point_cell_check in Hvc.
  cbv zeta in Hyc, Hvc.
  rewrite !andb_true_iff in Hyc. rewrite !andb_true_iff in Hvc.
  destruct Hyc as [[[[Hc1 _] _] Hne] Hint], Hvc as [[[Hv1 _] _] Hfl].
  split; [|split].
  - split; [discriminate|]. split;
      [|unfold point_row; apply Forall_cons_2; [by apply plain_cellb_ok|];
        apply Forall_cons_2; [by apply plain_cellb_ok|constructor]].
    unfold point_row. intros [=].
  - destruct (py_int _) as [z|]; [|discriminate].
    apply Z.eqb_eq in Hint. by subst.
  - by apply option_float_eqb_eq.
Qed.

Lemma scan_rows_point_rows current_year readings : ∀ d,
  current_year ≤ 9999 →
  Forall (valid_reading current_year) readings →
  scan_rows current_year d (map point_row readings)
  = fold_left (λ d p, <[p.1 := p.2]> d) (map reading_entry readings) d.
Proof.
  unfold scan_rows.
  induction readings as [|r readings IH]; intros d Hcy Hall; [reflexivity|].
  apply Forall_cons_1 in Hall as [Hr Hall]. cbn [map fold_left].
  destruct (point_row_plain _ _ Hcy Hr) as (_ & Hint & Hfl).
  unfold point_row at 1. rewrite (scan_row_reading _ _ _ _ r Hr Hint Hfl).
  by apply IH.
Qed.

(** X13: a comma table with a header row and one row per reading (year,
    value with one fractional digit and a decimal point, both within
    range) is parsed into exactly the dict of its readings, a later row
    replacing an earlier one for the same year. *)
Theorem point_table_parses_to_readings current_year header readings :
  current_year ≤ 9999 →
  plain_row "," header →
  readings ≠ [] →
  Forall (valid_reading current_year) readings →
  parse_response current_year (csv_text "," (header :: map point_row readings))
  = Some (dict_of_pairs (map reading_entry readings)).
Proof.
  intros Hcy Hheader Hne Hall.
  assert (Hplain : Forall (plain_row ",") (header :: map point_row readings)).
  { constructor; [exact Hheader|]. apply Forall_fmap.
    eapply Forall_impl; [exact Hall|]. intros r Hr.
    by destruct (point_row_plain _ _ Hcy Hr) as [H _]. }
  unfold parse_response, SEPARATORS. cbn [try_separators].
  rewrite (csv_rows_plain "," ltac:(discriminate) ltac:(discriminate)
             ltac:(discriminate) _ Hplain).
  replace (length (header :: map point_row readings) <? 2)%nat with false.
  - cbn [tl]. rewrite (scan_rows_point_rows _ _ _ Hcy Hall).
    fold (dict_of_pairs (map reading_entry readings)).
    rewrite dict_of_pairs_nonempty; [reflexivity|]. by destruct readings.
  - symmetry. apply Nat.ltb_ge. destruct readings; [contradiction|].
    simpl. lia.
Qed.

Lemma point_table_parses_to_readings_example :
  parse_response 2026
    (csv_text "," ([str "year"; str "value"]
                     :: map point_row
                          [{| reading_year := 2023; reading_neg := false;
                              reading_tenths := 107 |}]))
  = Some (dict_of_pairs
            (map reading_entry
               [{| reading_year := 2023; reading_neg := false;
                   reading_tenths := 107 |}])).
Proof.
  apply point_table_parses_to_readings.
  - lia.
  - split; [discriminate|]. split; [discriminate|].
    repeat constructor; try discriminate; vm_compute; discriminate.
  - discriminate.
  - repeat constructor; simpl; lia.
Defined.

(** ** Cells that cannot be a year *)

Section Survives.
Variable p : ascii → bool.
Variable c : ascii.
Hypothesis Hpc : p c = false.

Lemma lstrip_by_keeps s : In c s → In c (lstrip_by p s).
Proof.
  induction s as [|x s IH]; [intros []|].
  intros Hin. cbn [lstrip_by]. destruct (p x) eqn:Hx; [|exact Hin].
  destruct Hin as [->|Hin]; [congruence|by apply IH].
Qed.

Lemma strip_by_keeps s : In c s → In c (strip_by p s).
Proof.
  intros Hin. unfold strip_by, rstrip_by.
  apply in_rev. rewrite rev_involutive.
  apply lstrip_by_keeps. apply -> in_rev. by apply lstrip_by_keeps.
Qed.

End Survives.

Lemma digit_run_foreign c n : ∀ s,
  (length s ≤ n)%nat →
  is_digit c = false → c ≠ "_"%char → In c s → digit_run s = None.
Proof.
  induction n as [|n IH]; intros s Hlen Hd Hu Hin.
  - destruct s; [destruct Hin|simpl in Hlen; lia].
  - destruct s as [|x s]; [destruct Hin|]. cbn [digit_run].
    destruct (is_digit x) eqn:Hx; [|reflexivity].
    destruct Hin as [->|Hin]; [congruence|].
    destruct s as [|x' s]; [destruct Hin|].
    destruct (Ascii.eqb x' "_") eqn:Hx'.
    + apply Ascii.eqb_eq in Hx'. subst x'.
      destruct Hin as [Heq|Hin]; [by subst c|].
      destruct s as [|d s]; [reflexivity|].
      destruct (is_digit d); [|reflexivity].
      rewrite (IH (d :: s)); [reflexivity| |exact Hd|exact Hu|exact Hin].
      simpl in Hlen |- *. lia.
    + rewrite (IH (x' :: s)); [reflexivity| |exact Hd|exact Hu|exact Hin].
      simpl in Hlen |- *. lia.
Qed.

Lemma py_int_foreign c s :
  is_digit c = false → is_num_space c = false →
  c ≠ "_"%char → c ≠ "-"%char → c ≠ "+"%char →
  In c s → py_int s = None.
Proof.
  intros Hd Hs Hu Hm Hp Hin. unfold py_int.
  pose proof (strip_by_keeps _ _ Hs _ Hin) as Hin'.
  destruct (strip_by is_num_space s) as [|x body]; [destruct Hin'|].
  assert (Hrun : ∀ t, In c t → digit_run t = None)
    by (intros t; by apply (digit_run_foreign c (length t))).
  unfold split_sign.
  destruct (Ascii.eqb x "-") eqn:Hx1;
    [|destruct (Ascii.eqb x "+") eqn:Hx2].
  - apply Ascii.eqb_eq in Hx1. subst x.
    destruct Hin' as [Heq|Hin']; [by subst c|]. by rewrite Hrun.
  - apply Ascii.eqb_eq in Hx2. subst x.
    destruct Hin' as [Heq|Hin']; [by subst c|]. by rewrite Hrun.
  - by rewrite Hrun.
Qed.

Lemma clean_cell_keeps_semicolon cell :
  In ";"%char cell → In ";"%char (clean_cell cell).
Proof.
  intros Hin. unfold clean_cell, replace_char, strip_char, strip.
  apply (in_map (λ c, if Ascii.eqb c "," then "."%char else c) _ ";"%char).
  repeat (apply strip_by_keeps; [reflexivity|]). exact Hin.
Qed.

Lemma py_int_semicolon s : In ";"%char s → py_int s = None.
Proof.
  intros Hin.
  apply (py_int_foreign ";"); try reflexivity; try discriminate. exact Hin.
Qed.

(** X14: a cell that holds a semicolon never reads as a year: cleaning
    keeps the semicolon and [int] rejects the text. *)
Theorem semicolon_cell_is_no_year (cell : text) :
  In ";"%char cell → py_int (clean_cell cell) = None.
Proof.
  intros Hin. by apply py_int_semicolon, clean_cell_keeps_semicolon.
Qed.

Lemma semicolon_cell_is_no_year_example :
  py_int (clean_cell (str "2023;10")) = None.
Proof.
  apply semicolon_cell_is_no_year. vm_compute. tauto.
Defined.

(** ** Semicolon tables with decimal commas *)

Lemma plain_cellb_parts sep c :
  plain_cellb sep c = true →
  Forall (plain_char sep) c ∧ Z.of_nat (length c) ≤ 16.
Proof.
  unfold plain_cellb. rewrite andb_true_iff, forallb_forall.
  intros [Hall Hlen]. split; [|by apply Z.leb_le].
  apply Forall_forall. intros ch Hch. apply list_elem_of_In in Hch.
  specialize (Hall ch Hch). rewrite !andb_true_iff, !negb_true_iff in Hall.
  destruct Hall as [[[H1 H2] H3] H4].
  repeat split; by apply Ascii.eqb_neq.
Qed.

Lemma comma_cell_check_ok neg k :
  tenth_in_range neg k → comma_cell_check neg k = true.
Proof.
  intros [H0 Hk]. destruct neg.
  - assert (Hall : forallb (comma_cell_check true) (upto 51) = true)
      by (vm_compute; reflexivity).
    rewrite forallb_forall in Hall. apply Hall, upto_elem. lia.
  - assert (Hall : forallb (comma_cell_check false) (upto 1001) = true)
      by (vm_compute; reflexivity).
    rewrite forallb_forall in Hall. apply Hall, upto_elem. lia.
Qed.

(** What the two readers see of the row of a valid reading. *)
Lemma comma_row_views current_year r :
  current_year ≤ 9999 → valid_reading current_year r →
  csv_line ";" (comma_row r) = csv_line "," (comma_view r)
  ∧ plain_row "," (comma_view r)
  ∧ plain_row ";" (comma_row r)
  ∧ py_int (clean_cell (str_of_int (reading_year r))) = Some (reading_year r)
  ∧ py_float (clean_cell (comma_decimal (reading_neg r) (reading_tenths r)))
    = Some (reading_value r).
Proof.
  intros Hcy [Hy Hk].
  pose proof (year_cell_check_ok (reading_year r) ltac:(lia)) as Hyc.
  pose proof (comma_cell_check_ok _ _ Hk) as Hvc.
  unfold year_cell_check in Hyc. unfold comma_cell_check in Hvc.
  cbv zeta in Hyc, Hvc.
  rewrite !andb_true_iff in Hyc. rewrite !andb_true_iff in Hvc.
  destruct Hyc as [[[[Hy1 Hy2] _] _] Hint].
  destruct Hvc as [[[[Hsplit Hi1] Hd1] Hv2] Hfl].
  apply text_eqb_eq in Hsplit.
  apply plain_cellb_parts in Hy1 as [Hy1 Hy1len].
  apply plain_cellb_parts in Hi1 as [Hi1 Hi1len].
  split; [|split; [|split; [|split]]].
  - unfold csv_line, comma_row, comma_view. cbn [join].
    rewrite Hsplit. by rewrite <- !app_assoc.
  - split; [discriminate|]. split; [unfold comma_view; intros [=]|].
    unfold comma_view. apply Forall_cons_2; [|apply Forall_cons_2; [|constructor]].
    + split.
      * apply Forall_app. split; [exact Hy1|].
        apply Forall_cons_2; [repeat split; discriminate|exact Hi1].
      * rewrite length_app. cbn [length]. unfold field_limit. lia.
    + by apply plain_cellb_ok.
  - split; [discriminate|]. split; [unfold comma_row; intros [=]|].
    unfold comma_row. apply Forall_cons_2; [by apply plain_cellb_ok|].
    apply Forall_cons_2; [by apply plain_cellb_ok|constructor].
  - destruct (py_int _) as [z|]; [|discriminate].
    apply Z.eqb_eq in Hint. by subst.
  - by apply option_float_eqb_eq.
Qed.

Lemma scan_rows_comma_views current_year readings : ∀ d,
  scan_rows current_year d (map comma_view readings) = d.
Proof.
  unfold scan_rows.
  induction readings as [|r readings IH]; intros d; [reflexivity|].
  cbn [map fold_left].
  change (scan_row current_year d (comma_view r))
    with (scan_pair current_year d
            (clean_cell (str_of_int (reading_year r) ++ ";"%char
                           :: tenth_int_text (reading_neg r) (reading_tenths r)))
            (clean_cell [digit_char (reading_tenths r mod 10)])).
  unfold scan_pair.
  rewrite py_int_semicolon; [apply IH|].
  apply clean_cell_keeps_semicolon, in_or_app. right. by left.
Qed.

Lemma scan_rows_comma_rows current_year readings : ∀ d,
  current_year ≤ 9999 →
  Forall (valid_reading current_year) readings →
  scan_rows current_year d (map comma_row readings)
  = fold_left (λ d p, <[p.1 := p.2]> d) (map reading_entry readings) d.
Proof.
  unfold scan_rows.
  induction readings as [|r readings IH]; intros d Hcy Hall; [reflexivity|].
  apply Forall_cons_1 in Hall as [Hr Hall]. cbn [map fold_left].
  destruct (comma_row_views _ _ Hcy Hr) as (_ & _ & _ & Hint & Hfl).
  unfold comma_row at 1. rewrite (scan_row_reading _ _ _ _ r Hr Hint Hfl).
  by apply IH.
Qed.

Lemma comma_rows_text current_year readings :
  current_year ≤ 9999 →
  Forall (valid_reading current_year) readings →
  concat (map (csv_line ";") (map comma_row readings))
  = concat (map (csv_line ",") (map comma_view readings)).
Proof.
  intros Hcy Hall. induction Hall as [|r rs Hr _ IH]; [reflexivity|].
  cbn [map concat]. rewrite IH.
  destruct (comma_row_views _ _ Hcy Hr) as [-> _]. reflexivity.
Qed.

(** X15: a semicolon table whose values carry a decimal comma is read
    by the comma pass as rows that hold no year, so that pass finds
    nothing, and the semicolon pass then yields exactly the dict of the
    readings. *)
Theorem comma_decimal_table_parses_to_readings current_year header readings :
  current_year ≤ 9999 →
  plain_row ";" header →
  plain_row "," [join [";"%char] header] →
  readings ≠ [] →
  Forall (valid_reading current_year) readings →
  parse_response current_year (csv_text ";" (header :: map comma_row readings))
  = Some (dict_of_pairs (map reading_entry readings)).
Proof.
  intros Hcy Hheader Hjoined Hne Hall.
  set (raw := csv_text ";" (header :: map comma_row readings)).
  assert (Hlen : ∀ (h : list text) (f : reading → list text),
             (length (h :: map f readings) <? 2)%nat = false).
  { intros h f. apply Nat.ltb_ge. destruct readings; [contradiction|].
    simpl. lia. }
  assert (Hcomma : csv_rows "," raw
                   = Some ([join [";"%char] header] :: map comma_view readings)).
  { assert (Hraw : raw = csv_text ","
                     ([join [";"%char] header] :: map comma_view readings)).
    { unfold raw, csv_text. cbn [map concat]. f_equal.
      exact (comma_rows_text _ _ Hcy Hall). }
    rewrite Hraw.
    apply (csv_rows_plain "," ltac:(discriminate) ltac:(discriminate)
             ltac:(discriminate)).
    constructor; [exact Hjoined|]. apply Forall_fmap.
    eapply Forall_impl; [exact Hall|]. intros r Hr.
    by destruct (comma_row_views _ _ Hcy Hr) as (_ & H & _). }
  assert (Hsemi : csv_rows ";" raw = Some (header :: map comma_row readings)).
  { apply (csv_rows_plain ";" ltac:(discriminate) ltac:(discriminate)
             ltac:(discriminate)).
    constructor; [exact Hheader|]. apply Forall_fmap.
    eapply Forall_impl; [exact Hall|]. intros r Hr.
    by destruct (comma_row_views _ _ Hcy Hr) as (_ & _ & H & _). }
  unfold parse_response, SEPARATORS. cbn [try_separators].
  rewrite Hcomma, Hlen. cbn [tl].
  rewrite scan_rows_comma_views.
  replace (dict_nonempty ∅) with false by reflexivity.
  rewrite Hsemi, Hlen. cbn [tl].
  rewrite (scan_rows_comma_rows _ _ _ Hcy Hall).
  fold (dict_of_pairs (map reading_entry readings)).
  rewrite dict_of_pairs_nonempty; [reflexivity|]. by destruct readings.
Qed.

Lemma comma_decimal_table_parses_to_readings_example :
  parse_response 2026
    (csv_text ";" ([str "rok"; str "inflace"]
                     :: map comma_row
                          [{| reading_year := 2023; reading_neg := false;
                              reading_tenths := 107 |}]))
  = Some (dict_of_pairs
            (map reading_entry
               [{| reading_year := 2023; reading_neg := false;
                   reading_tenths := 107 |}])).
Proof.
  apply comma_decimal_table_parses_to_readings.
  - lia.
  - split; [discriminate|]. split; [discriminate|].
    repeat constructor; try discriminate; vm_compute; discriminate.
  - split; [discriminate|]. split; [discriminate|].
    repeat constructor; try discriminate; vm_compute; discriminate.
  - discriminate.
  - repeat constructor; simpl; lia.
Defined.
